(** * yet-another-2d-engine: player physics, map loading and collision shapes

    A shallow embedding of the parts of the engine that the specification
    talks about:

    - [PlayerNode::PlayerNode], [PlayerNode::SetJumpParameters],
      [PlayerNode::GetMovementInput] and [PlayerNode::Update]
      (src/Nodes/PlayerNode.cpp),
    - the [Map] constructor and [Map::GetSize] (src/Nodes/Map.cpp),
    - [MainEngine::Init], [MainEngine::InitializeWindow], [MainEngine::Stop]
      and [CreateNodeMap] (src/MainEngine.cpp),
    - the [CollisionShapeFactory] builder
      (include/Nodes/CollisionShapes/CollisionShapeFactory.h),
    - the integration step of [RigidbodyNode::Update].

    The C++ code computes on [float] and counts in [int].  Every definition
    below is written once, over an interface [FloatArith] of the arithmetic
    the code uses.  What [float] is, is the instance IEEE-754 binary32 (round
    to nearest, ties to even); the instance of the rationals gives the
    numbers that float results are compared with, and is not a model of the
    code.  The [int] counters are integers wrapped to 32 bits. *)

From Stdlib Require Import ZArith QArith Qabs Qpower Floats.SpecFloat Ascii String List Lia.
From stdpp Require Import base option list gmap strings.

Set Default Proof Using "Type".
Local Open Scope Z_scope.

(** ** Arithmetic *)

(** The operations of C++ [float] that the sources use.  [of_int] is the
    implicit or explicit conversion from [int]; [flt a b] is [a < b]. *)
Class FloatArith (F : Type) : Type := {
  of_int : Z → F;
  fadd : F → F → F;
  fmul : F → F → F;
  fdiv : F → F → F;
  fopp : F → F;
  fabs : F → F;
  flt : F → F → bool
}.

(** [std::max(a, b)] is [(a < b) ? b : a]. *)
Definition std_max {F} `{FloatArith F} (a b : F) : F :=
  if flt a b then b else a.

(** A decimal literal [n/d] with a finite binary32 numerator and denominator
    ([0.8f] is [lit 4 5]): one correctly rounded division. *)
Definition lit {F} `{FloatArith F} (n d : Z) : F := fdiv (of_int n) (of_int d).

(** IEEE-754 binary32: 24 bits of precision, exponents below 128. *)
Module Binary32.
Definition prec : Z := 24.
Definition emax : Z := 128.
Definition float : Type := spec_float.

Definition of_Z (z : Z) : float := binary_normalize prec emax z 0 false.

(** The rational number a finite float stands for (0 for the others). *)
Definition to_Q (f : float) : Q :=
  match f with
  | S754_finite s m e =>
      let mag := (inject_Z (Z.pos m) * (2 ^ e))%Q in
      if s then (- mag)%Q else mag
  | _ => 0%Q
  end.

(** By how many bits the digits of a count below [2^24] are shifted to fill
    the mantissa. *)
Definition shift (p : positive) : Z := 24 - Z.pos (Pos.size p).

(** The sign bit of a float that is not a NaN. *)
Definition sign_bit (f : float) : option bool :=
  match f with
  | S754_zero s | S754_infinity s | S754_finite s _ _ => Some s
  | S754_nan => None
  end.
End Binary32.

#[export] Instance binary32_arith : FloatArith Binary32.float := {|
  of_int := Binary32.of_Z;
  fadd := SFadd Binary32.prec Binary32.emax;
  fmul := SFmul Binary32.prec Binary32.emax;
  fdiv := SFdiv Binary32.prec Binary32.emax;
  fopp := SFopp;
  fabs := SFabs;
  flt := SFltb
|}.

(** The rationals, with their exact operations.  They are not the machine
    arithmetic: nothing is rounded, nothing overflows, there is no infinity
    and no NaN, and a quotient by 0 is 0.  They serve as the mathematical
    reference a float result is compared with. *)
Definition Qltb (a b : Q) : bool :=
  match (a ?= b)%Q with Lt => true | _ => false end.

#[export] Instance exact_arith : FloatArith Q := {|
  of_int := inject_Z;
  fadd := Qplus;
  fmul := Qmult;
  fdiv := Qdiv;
  fopp := Qopp;
  fabs := Qabs;
  flt := Qltb
|}.

(** ** Vectors (glm) *)

Module glm.
Record vec2 (F : Type) : Type := Vec2 { x : F; y : F }.
Record vec3 (F : Type) : Type := Vec3 { x3 : F; y3 : F; z3 : F }.
Arguments Vec2 {F} _ _.
Arguments x {F} _.
Arguments y {F} _.
Arguments Vec3 {F} _ _ _.
Arguments x3 {F} _.
Arguments y3 {F} _.
Arguments z3 {F} _.

Definition set_x {F} (v : vec2 F) (a : F) : vec2 F := Vec2 a (y v).
Definition set_y {F} (v : vec2 F) (a : F) : vec2 F := Vec2 (x v) a.

(** [v += w], componentwise. *)
Definition add2 {F} `{FloatArith F} (v w : vec2 F) : vec2 F :=
  Vec2 (fadd (x v) (x w)) (fadd (y v) (y w)).
End glm.
Import glm.

(** ** The player's tuning constants *)

(** The data members [PlayerNode] adds to [RigidbodyNode]. *)
Record Tuning (F : Type) : Type := MkTuning {
  playerSpeed : F;
  fallGravityFactor : F;
  buttonPressJumpGravityFactor : F;
  startJumpVelocity : F;
  gravityAcceleration : F
}.
Arguments MkTuning {F} _ _ _ _ _.
Arguments playerSpeed {F} _.
Arguments fallGravityFactor {F} _.
Arguments buttonPressJumpGravityFactor {F} _.
Arguments startJumpVelocity {F} _.
Arguments gravityAcceleration {F} _.

Section JumpParameters.
Context {F : Type} `{FloatArith F}.

(** The local [jumpTime] of [SetJumpParameters], after its two statements:
    [jumpTime = (targetDistance / 4.f) / playerSpeed;]
    [jumpTime += (targetDistance / 4.f) / playerSpeed * fallGravityFactor;]
    Every operation is rounded on its own: the product and the sum of the
    second statement are not fused. *)
Definition jumpTime (targetDistance : F) (t : Tuning F) : F :=
  let jumpTime := fdiv (fdiv targetDistance (of_int 4)) (playerSpeed t) in
  fadd jumpTime
       (fmul (fdiv (fdiv targetDistance (of_int 4)) (playerSpeed t))
             (fallGravityFactor t)).

(** [PlayerNode::SetJumpParameters]. *)
Definition SetJumpParameters (targetHeight targetDistance : F) (t : Tuning F)
  : Tuning F :=
  let jumpTime := jumpTime targetDistance t in
  let startJumpVelocity := fdiv (fmul (of_int 2) targetHeight) jumpTime in
  let gravityAcceleration :=
    fdiv (fdiv (fopp startJumpVelocity) jumpTime)
         (buttonPressJumpGravityFactor t) in
  MkTuning (playerSpeed t) (fallGravityFactor t)
           (buttonPressJumpGravityFactor t)
           startJumpVelocity gravityAcceleration.

(** The closed forms as the specification writes them. *)
Definition spec_jumpTime (targetDistance speed fall : F) : F :=
  fmul (fdiv (fdiv targetDistance (of_int 4)) speed) (fadd (of_int 1) fall).

Definition spec_startJumpVelocity (targetHeight jumpTime : F) : F :=
  fdiv (fmul (of_int 2) targetHeight) jumpTime.

Definition spec_gravityAcceleration (startVelocity jumpTime button : F) : F :=
  fdiv (fopp (fdiv startVelocity jumpTime)) button.

(** The constants the [PlayerNode] constructor sets before it calls
    [SetJumpParameters(2.f, 0.5f)]: speed 7, fall factor 0.8, button factor
    0.5.  The two derived fields are not initialised there; they are
    overwritten by the call, so any value stands for them. *)
Definition constructor_tuning : Tuning F :=
  MkTuning (of_int 7) (lit 4 5) (lit 1 2) (of_int 0) (of_int 0).

Definition constructed_tuning : Tuning F :=
  SetJumpParameters (of_int 2) (lit 1 2) constructor_tuning.
End JumpParameters.

(** The closed forms at the values of the constructor (height 2, distance
    0.5, speed 7, factors 0.8 and 0.5) in exact arithmetic: the numbers the
    float constants are compared with. *)
Definition reference_jumpTime : Q :=
  spec_jumpTime (lit 1 2) (of_int 7) (lit 4 5).
Definition reference_startJumpVelocity : Q :=
  spec_startJumpVelocity (of_int 2) reference_jumpTime.
Definition reference_gravityAcceleration : Q :=
  spec_gravityAcceleration reference_startJumpVelocity reference_jumpTime
                           (lit 1 2).

(** ** The node tree *)

(** Nodes are referred to by address in the overlap sets. *)
Definition NodeRef : Type := nat.

(** The data members [RigidbodyNode] adds to [Node]. *)
Record Body (F : Type) : Type := MkBody {
  velocity : vec2 F;
  acceleration : vec2 F;
  isKinematic : bool;
  isTrigger : bool;
  overlappedNodesThisFrame : list NodeRef
}.
Arguments MkBody {F} _ _ _ _ _.
Arguments velocity {F} _.
Arguments acceleration {F} _.
Arguments isKinematic {F} _.
Arguments isTrigger {F} _.
Arguments overlappedNodesThisFrame {F} _.

Definition SetVelocity {F} (b : Body F) (v : vec2 F) : Body F :=
  MkBody v (acceleration b) (isKinematic b) (isTrigger b)
         (overlappedNodesThisFrame b).

Definition SetAcceleration {F} (b : Body F) (a : vec2 F) : Body F :=
  MkBody (velocity b) a (isKinematic b) (isTrigger b)
         (overlappedNodesThisFrame b).

(** The dynamic type of a node, with the members that type adds. *)
Inductive NodeClass (F : Type) : Type :=
| IsNode
| IsSpriteNode (sprite : Z * Z)
| IsCameraNode
| IsRigidbodyNode (b : Body F)
| IsPlayerNode (b : Body F) (t : Tuning F)
| IsMap (size : vec2 F).
Arguments IsNode {F}.
Arguments IsSpriteNode {F} _.
Arguments IsCameraNode {F}.
Arguments IsRigidbodyNode {F} _.
Arguments IsPlayerNode {F} _ _.
Arguments IsMap {F} _.

(** A node: its dynamic type, the position of its local transform and the
    children it owns, in the order they were added. *)
#[warnings="-register-all"]
Inductive Node (F : Type) : Type :=
  MkNode (dynamic_type : NodeClass F) (position : vec3 F)
         (children : list (Node F)).
Arguments MkNode {F} _ _ _.

Definition dynamic_type {F} (n : Node F) : NodeClass F :=
  match n with MkNode d _ _ => d end.
Definition position {F} (n : Node F) : vec3 F :=
  match n with MkNode _ p _ => p end.
Definition children {F} (n : Node F) : list (Node F) :=
  match n with MkNode _ _ cs => cs end.

(** [dynamic_cast<RigidbodyNode*>(node)]: the rigid body of a node whose type
    is [RigidbodyNode] or derives from it, null otherwise. *)
Definition as_RigidbodyNode {F} (n : Node F) : option (Body F) :=
  match dynamic_type n with
  | IsRigidbodyNode b | IsPlayerNode b _ => Some b
  | _ => None
  end.

(** The predicate [PlayerNode::Update] hands to [GetChild]:
    [dynamic_cast<RigidbodyNode*>(node) != nullptr]. *)
Definition is_RigidbodyNode {F} (n : Node F) : bool :=
  bool_decide (is_Some (as_RigidbodyNode n)).

(** Modelled from the spec: [Node::GetChild] (Node.cpp is not part of the
    sources at hand).  It returns the first child that satisfies the
    predicate and null when there is none. *)
Definition GetChild {F} (predicate : Node F → bool) (cs : list (Node F))
  : option (Node F) :=
  List.find predicate cs.

(** Modelled from the spec: [Node::Clone], a deep copy of the node and of
    its subtree. *)
Fixpoint Clone {F} (n : Node F) : Node F :=
  match n with
  | MkNode d p cs => MkNode d p (List.map Clone cs)
  end.

(** Modelled from the spec: [GetLocalTransform()->SetPosition(p)]. *)
Definition SetPosition {F} (n : Node F) (p : vec3 F) : Node F :=
  MkNode (dynamic_type n) p (children n).

(** ** PlayerNode::Update *)

(** What can go wrong in the code modelled here. *)
Inductive fault : Type :=
| NullDereference   (* a member call through a null pointer *)
| OutOfRange.       (* std::out_of_range, thrown by std::map::at *)

Inductive result (A : Type) : Type :=
| Done (a : A)
| Faulted (f : fault).
Arguments Done {A} _.
Arguments Faulted {A} _.

(** The state of the four keys [GetMovementInput] polls. *)
Record Keys : Type := MkKeys {
  KEY_W : bool;
  KEY_S : bool;
  KEY_A : bool;
  KEY_D : bool
}.

Section Player.
Context {F : Type} `{FloatArith F}.

(** [PlayerNode::GetMovementInput]. *)
Definition GetMovementInput (k : Keys) : vec2 F :=
  let input := Vec2 (of_int 0) (of_int 0) in
  let input := if KEY_W k then add2 input (Vec2 (of_int 0) (of_int 1))
               else input in
  let input := if KEY_S k then add2 input (Vec2 (of_int 0) (of_int (-1)))
               else input in
  let input := if KEY_A k then add2 input (Vec2 (of_int (-1)) (of_int 0))
               else input in
  let input := if KEY_D k then add2 input (Vec2 (of_int 1) (of_int 0))
               else input in
  input.

(** [newAcceleration.x] after lines 48-51. *)
Definition horizontal_acceleration (input : vec2 F) (t : Tuning F)
           (b : Body F) : F :=
  if flt (fabs (x (velocity b))) (playerSpeed t)
     && flt (of_int 0) (fabs (x input))
  then fmul (x input) (of_int 100)
  else fmul (x (velocity b)) (fopp (of_int 10)).

(** The trigger lookup of lines 53-55: the cast of what [GetChild] finds. *)
Definition jumpTrigger (cs : list (Node F)) : option (Body F) :=
  GetChild is_RigidbodyNode cs ≫= as_RigidbodyNode.

(** [!jumpTrigger->GetOverlappedNodesThisFrame().empty()]. *)
Definition isGrounded (trigger : Body F) : bool :=
  negb (bool_decide (overlappedNodesThisFrame trigger = [])).

(** Lines 59-63: the jump. *)
Definition jump (input : vec2 F) (grounded : bool) (t : Tuning F)
           (b : Body F) : Body F :=
  if flt (of_int 0) (y input) && grounded
  then
    let newVelocity := velocity b in
    let newVelocity := set_y newVelocity (startJumpVelocity t) in
    SetVelocity b newVelocity
  else b.

(** [newAcceleration.y] after lines 65-74; [b] is the body after the
    jump. *)
Definition vertical_acceleration (input : vec2 F) (grounded : bool)
           (t : Tuning F) (b : Body F) : F :=
  let ay := gravityAcceleration t in
  let ay := if negb grounded && flt (y (velocity b)) (of_int 0)
            then fmul ay (fallGravityFactor t) else ay in
  let ay := if flt (of_int 0) (y input)
            then fmul ay (buttonPressJumpGravityFactor t) else ay in
  ay.

(** [PlayerNode::Update] up to and including [SetAcceleration], lines 44-76:
    the body that is handed to [RigidbodyNode::Update].  [cs] are the
    player's children. *)
Definition Update_controls (k : Keys) (cs : list (Node F)) (t : Tuning F)
           (b : Body F) : result (Body F) :=
  let input := GetMovementInput k in
  let newAcceleration := acceleration b in
  let newAcceleration :=
    set_x newAcceleration (horizontal_acceleration input t b) in
  match jumpTrigger cs with
  | None => Faulted NullDereference
  | Some trigger =>
      let grounded := isGrounded trigger in
      let b := jump input grounded t b in
      let newAcceleration :=
        set_y newAcceleration (vertical_acceleration input grounded t b) in
      Done (SetAcceleration b newAcceleration)
  end.

(** Modelled from the spec: the integration step of
    [RigidbodyNode::Update] (RigidbodyNode.cpp is not part of the sources at
    hand).  A body that is not kinematic gets
    [velocity += acceleration * deltaSeconds] and then
    [position += velocity * deltaSeconds]; the overlap set is replaced by
    the one computed this frame, here the argument [overlaps]. *)
Definition RigidbodyNode_Update (deltaSeconds : F) (overlaps : list NodeRef)
           (p : vec3 F) (b : Body F) : vec3 F * Body F :=
  let '(p, v) :=
    if isKinematic b then (p, velocity b)
    else
      let v := Vec2 (fadd (x (velocity b))
                          (fmul (x (acceleration b)) deltaSeconds))
                    (fadd (y (velocity b))
                          (fmul (y (acceleration b)) deltaSeconds)) in
      (Vec3 (fadd (x3 p) (fmul (x v) deltaSeconds))
            (fadd (y3 p) (fmul (y v) deltaSeconds))
            (z3 p),
       v) in
  (p, MkBody v (acceleration b) (isKinematic b) (isTrigger b) overlaps).

(** [PlayerNode::Update]: the controls, then the base class. *)
Definition PlayerNode_Update (k : Keys) (deltaSeconds : F)
           (overlaps : list NodeRef) (cs : list (Node F)) (t : Tuning F)
           (p : vec3 F) (b : Body F) : result (vec3 F * Body F) :=
  match Update_controls k cs t b with
  | Faulted f => Faulted f
  | Done b => Done (RigidbodyNode_Update deltaSeconds overlaps p b)
  end.
End Player.

(** ** Map *)

(** The members of a [Map] that its constructor writes: [size], and the
    children it owns as a [Node]. *)
Record Map (F : Type) : Type := MkMap {
  size : vec2 F;
  tiles : list (Node F)
}.
Arguments MkMap {F} _ _.
Arguments size {F} _.
Arguments tiles {F} _.

(** Modelled from the spec: [Node::AddChild], which attaches the node after
    the children already there. *)
Definition AddChild {F} (this : Map F) (n : Node F) : Map F :=
  MkMap (size this) (tiles this ++ [n]).

(** [Map::GetSize]. *)
Definition GetSize {F} (this : Map F) : vec2 F := size this.

(** The strings that successive calls of [std::getline(file, FileLine)]
    deliver on a stream with the characters [s] left, until the call that
    fails: a line ends at a newline, which is dropped, or at the end of the
    file; a call that finds the end of the file at once fails.  [acc] holds,
    reversed, the characters of the line being read. *)
Fixpoint getlines_from (acc : list ascii) (s : list ascii)
  : list (list ascii) :=
  match s with
  | [] => match acc with [] => [] | _ => [rev acc] end
  | c :: s' =>
      if Ascii.eqb c "010"%char
      then rev acc :: getlines_from [] s'
      else getlines_from (c :: acc) s'
  end.

(** The lines of the file behind [std::ifstream file(path)]; [None] is a file
    that cannot be opened, on which the first [std::getline] fails. *)
Definition getlines (file : option string) : list (list ascii) :=
  match file with
  | None => []
  | Some content => getlines_from [] (list_ascii_of_string content)
  end.

(** How a loop of the constructor ends: normally, or by an exception, in
    both cases with the state it has reached. *)
Inductive completion (S : Type) : Type :=
| Normal (s : S)
| Thrown (e : fault) (s : S).
Arguments Normal {S} _.
Arguments Thrown {S} _ _.

(** The outcome of [Map::Map]: an object, or a fault (an exception or a
    member call through a null pointer) that leaves no object behind;
    [partial] is the state of the object under construction when the fault
    occurred. *)
Inductive construction (F : Type) : Type :=
| Constructed (this : Map F)
| Threw (e : fault) (partial : Map F).
Arguments Constructed {F} _.
Arguments Threw {F} _ _.

(** The value of an [int] after an operation whose mathematical result is
    [z]: the result wrapped to 32 bits, two's complement.  (Overflow of a
    signed [int] is undefined in C++; the counters of [Map::Map] wrap.) *)
Definition int_wrap (z : Z) : Z := (z + 2 ^ 31) mod 2 ^ 32 - 2 ^ 31.
Arguments int_wrap : simpl never.

Section MapConstructor.
Context {F : Type} `{FloatArith F}.

(** The tile the loop body makes of a prototype, lines 12-13. *)
Definition make_tile (prototype : Node F) (characterNumber lineNumber : Z)
  : Node F :=
  let tile := Clone prototype in
  SetPosition tile
    (Vec3 (of_int characterNumber) (of_int lineNumber) (of_int 0)).

(** The inner loop, [for (char character : FileLine)], from the state
    ([this], [characterNumber]).  [nodesMap] is a [std::map<char, Node*>]:
    a key is mapped to a pointer, [None] for the null pointer and [Some] for
    a pointer to a live node.  [nodesMap.at(character)] throws
    [std::out_of_range] for a character that is not a key, and [->Clone()]
    through a null pointer is a fault.  [characterNumber++] is an [int]
    increment. *)
Fixpoint line_loop (nodesMap : gmap ascii (option (Node F))) (lineNumber : Z)
         (FileLine : list ascii) (characterNumber : Z) (this : Map F)
  : completion (Map F * Z) :=
  match FileLine with
  | [] => Normal (this, characterNumber)
  | character :: rest =>
      match nodesMap !! character with
      | None => Thrown OutOfRange (this, characterNumber)
      | Some None => Thrown NullDereference (this, characterNumber)
      | Some (Some prototype) =>
          let tile := make_tile prototype characterNumber lineNumber in
          let this := AddChild this tile in
          line_loop nodesMap lineNumber rest
                    (int_wrap (characterNumber + 1)) this
      end
  end.

(** The outer loop, [while (std::getline(file, FileLine))], over the lines
    still to be read, from the state ([this], [lineNumber]);
    [characterNumber] is 0 whenever a line starts, and [lineNumber++] is an
    [int] increment. *)
Fixpoint file_loop (nodesMap : gmap ascii (option (Node F)))
         (lines : list (list ascii)) (lineNumber : Z) (this : Map F)
  : completion (Map F * Z) :=
  match lines with
  | [] => Normal (this, lineNumber)
  | FileLine :: rest =>
      match line_loop nodesMap lineNumber FileLine 0 this with
      | Thrown e (this, _) => Thrown e (this, lineNumber)
      | Normal (this, characterNumber) =>
          let this :=
            MkMap (set_x (size this)
                         (std_max (x (size this)) (of_int characterNumber)))
                  (tiles this) in
          file_loop nodesMap rest (int_wrap (lineNumber + 1)) this
      end
  end.

(** [Map::Map(path, nodesMap)]; [file] is what is behind [path]. *)
Definition Map_construct (file : option string)
           (nodesMap : gmap ascii (option (Node F))) : construction F :=
  let this := MkMap (Vec2 (of_int 0) (of_int 0)) [] in
  match file_loop nodesMap (getlines file) 0 this with
  | Thrown e (this, _) => Threw e this
  | Normal (this, lineNumber) =>
      Constructed (MkMap (set_y (size this) (of_int lineNumber))
                         (tiles this))
  end.

(** [Map::Map] on a prototype map none of whose pointers is null, as
    [CreateNodeMap] builds it: the map of the prototypes themselves. *)
Definition Map_new (file : option string) (nodesMap : gmap ascii (Node F))
  : construction F :=
  Map_construct file (Some <$> nodesMap).
End MapConstructor.

(** *** What the specification says of the constructor *)

(** A cell of the grid: line, column, character. *)
Definition cell : Type := Z * Z * ascii.

Definition cell_line (c : cell) : Z := c.1.1.
Definition cell_column (c : cell) : Z := c.1.2.
Definition cell_character (c : cell) : ascii := c.2.

(** The cells of line [r], from column [c] on, left to right. *)
Fixpoint row_cells (r c : Z) (line : list ascii) : list cell :=
  match line with
  | [] => []
  | ch :: rest => (r, c, ch) :: row_cells r (c + 1) rest
  end.

(** The cells of a grid from line [r] on, in reading order: left to right
    within a line, lines top to bottom. *)
Fixpoint cells_from (r : Z) (lines : list (list ascii)) : list cell :=
  match lines with
  | [] => []
  | line :: rest => row_cells r 0 line ++ cells_from (r + 1) rest
  end.

Definition cells (lines : list (list ascii)) : list cell :=
  cells_from 0 lines.

(** The length of the longest line, 0 when there is none. *)
Definition max_line_length (lines : list (list ascii)) : Z :=
  foldr Z.max 0 (List.map (λ l, Z.of_nat (length l)) lines).

Section MapSpec.
Context {F : Type} `{FloatArith F}.

Definition has_prototype (nodesMap : gmap ascii (Node F)) (c : cell)
  : bool :=
  bool_decide (is_Some (nodesMap !! cell_character c)).

(** [tile] is the tile of the cell [c]: a clone of the prototype of its
    character, placed at (column, line, 0), the column and the line as the
    [int] counters hold them. *)
Definition is_tile_of (nodesMap : gmap ascii (Node F)) (c : cell)
           (tile : Node F) : Prop :=
  ∃ prototype : Node F,
    nodesMap !! cell_character c = Some prototype
    ∧ tile = SetPosition (Clone prototype)
               (Vec3 (of_int (int_wrap (cell_column c)))
                     (of_int (int_wrap (cell_line c)))
                     (of_int 0)).

(** The tile of a cell, when its character has a prototype. *)
Definition tile_of_cell (nodesMap : gmap ascii (Node F)) (c : cell)
  : option (Node F) :=
  (λ prototype, SetPosition (Clone prototype)
                  (Vec3 (of_int (int_wrap (cell_column c)))
                        (of_int (int_wrap (cell_line c)))
                        (of_int 0)))
    <$> nodesMap !! cell_character c.

(** The tiles of the cells that have a prototype, the others skipped. *)
Definition tiles_of_cells (nodesMap : gmap ascii (Node F))
           (cs : list cell) : list (Node F) :=
  omap (tile_of_cell nodesMap) cs.

(** The cells before the first one without a prototype. *)
Fixpoint cells_before_fault (nodesMap : gmap ascii (Node F))
         (cs : list cell) : list cell :=
  match cs with
  | [] => []
  | c :: rest =>
      if has_prototype nodesMap c
      then c :: cells_before_fault nodesMap rest
      else []
  end.

(** The reading of the specification under which a character without a
    prototype is passed over: the map is built, with one tile for each
    cell that has a prototype. *)
Definition places_every_mapped_cell (file : option string)
           (nodesMap : gmap ascii (Node F)) : Prop :=
  ∃ this : Map F,
    Map_new file nodesMap = Constructed this
    ∧ tiles this = tiles_of_cells nodesMap (cells (getlines file)).
End MapSpec.

(** ** Integers held in floats *)

(** [Map] keeps counts of characters and lines in [float]s.  Below [bound],
    which is within the range of [int], the conversion from [int] is exact,
    so comparing two converted counts is comparing the counts. *)
Class ExactInts (F : Type) `{FloatArith F} (bound : Z) : Prop := {
  bound_pos : 0 < bound;
  bound_int : bound ≤ 2 ^ 31;
  flt_of_int : ∀ a b : Z,
    0 ≤ a < bound → 0 ≤ b < bound → flt (of_int a) (of_int b) = (a <? b)
}.

(** ** CollisionShapeFactory *)

(** A finished shape: the extents of a rectangle or the radius of a circle. *)
Inductive CollisionShape (F : Type) : Type :=
| Rectangle (height width : F)
| Circle (radius : F).
Arguments Rectangle {F} _ _.
Arguments Circle {F} _.

(** Factories and shapes live on the heap and are shared through
    [std::shared_ptr]: a factory is its [product] pointer (null before a
    shape has been created), a shape is its descriptor. *)
Record Heap (F : Type) : Type := MkHeap {
  factories : gmap nat (option nat);
  shapes : gmap nat (CollisionShape F)
}.
Arguments MkHeap {F} _ _.
Arguments factories {F} _.
Arguments shapes {F} _.

Section Factory.
Context {F : Type}.

(** Modelled from the spec: [CollisionShapeFactory::CreateFactory]
    (CollisionShapeFactory.cpp is not part of the sources at hand), which
    returns a new factory without a product. *)
Definition CreateFactory (h : Heap F) : nat * Heap F :=
  let this := fresh (dom (factories h)) in
  (this, MkHeap (<[this := None]> (factories h)) (shapes h)).

(** Modelled from the spec: the step the two [Create...] functions share.
    The factory gets a new product, a shape of its own on the heap, and the
    call returns the factory; calling through a pointer that is not a
    factory is a fault. *)
Definition create_shape (this : nat) (s : CollisionShape F) (h : Heap F)
  : result (nat * Heap F) :=
  match factories h !! this with
  | None => Faulted NullDereference
  | Some _ =>
      let a := fresh (dom (shapes h)) in
      Done (this, MkHeap (<[this := Some a]> (factories h))
                         (<[a := s]> (shapes h)))
  end.

(** Modelled from the spec: [CreateRectangleCollisionShape(height, width)]
    makes the product and returns the factory it was called on. *)
Definition CreateRectangleCollisionShape (this : nat) (height width : F)
           (h : Heap F) : result (nat * Heap F) :=
  create_shape this (Rectangle height width) h.

(** Modelled from the spec: [CreateCircleCollisionShape(radius)], which the
    header at hand does not declare but [PlayerNode] and [MainEngine]
    call. *)
Definition CreateCircleCollisionShape (this : nat) (radius : F)
           (h : Heap F) : result (nat * Heap F) :=
  create_shape this (Circle radius) h.

(** Modelled from the spec: [Build()] returns the product. *)
Definition Build (this : nat) (h : Heap F) : result (option nat) :=
  match factories h !! this with
  | None => Faulted NullDereference
  | Some product => Done product
  end.

(** The calls a client can make on the factory interface. *)
Inductive call : Type :=
| CallCreateFactory
| CallCreateRectangle (this : nat) (height width : F)
| CallCreateCircle (this : nat) (radius : F)
| CallBuild (this : nat).

(** The heap after a call; a call that faults leaves it as it was. *)
Definition after_call (c : call) (h : Heap F) : Heap F :=
  match c with
  | CallCreateFactory => (CreateFactory h).2
  | CallCreateRectangle this height width =>
      match CreateRectangleCollisionShape this height width h with
      | Done (_, h') => h'
      | Faulted _ => h
      end
  | CallCreateCircle this radius =>
      match CreateCircleCollisionShape this radius h with
      | Done (_, h') => h'
      | Faulted _ => h
      end
  | CallBuild _ => h
  end.

Definition after_calls (cs : list call) (h : Heap F) : Heap F :=
  foldl (λ h c, after_call c h) h cs.
End Factory.
Arguments call : clear implicits.

(** ** Sample scenes *)

Module Sample.
Import Binary32.

Definition origin : vec3 float := Vec3 (of_int 0) (of_int 0) (of_int 0).

(** The children the [PlayerNode] constructor adds, in its order: the ball
    sprite, the camera, and the jump trigger half a unit below. *)
Definition player_children (trigger : Body float) : list (Node float) :=
  [ MkNode (IsSpriteNode (0, 2)) origin [];
    MkNode IsCameraNode origin [];
    MkNode (IsRigidbodyNode trigger)
           (Vec3 (of_int 0) (fopp (lit 1 2)) (of_int 0)) [] ].

(** A player whose trigger was removed. *)
Definition orphan_children : list (Node float) :=
  [ MkNode (IsSpriteNode (0, 2)) origin [];
    MkNode IsCameraNode origin [] ].

Definition still : vec2 float := Vec2 (of_int 0) (of_int 0).

Definition trigger_on_ground : Body float :=
  MkBody still still false true [7%nat].
Definition trigger_in_air : Body float :=
  MkBody still still false true [].

(** A player moving right at 3 units and falling at 2. *)
Definition falling_body : Body float :=
  MkBody (Vec2 (of_int 3) (of_int (-2))) still false false [].

Definition brick : Body float := MkBody still still true false [].

Definition keys_W_D : Keys := MkKeys true false false true.
Definition keys_none : Keys := MkKeys false false false false.

(** [0.5f - (1.f/32.f)], the radius of the player's circle. *)
Definition player_radius : float := fadd (lit 1 2) (fopp (lit 1 32)).

(** One sixtieth of a second. *)
Definition frame : float := lit 1 60.

Definition sprite_tile : Node float := MkNode (IsSpriteNode (0, 1)) origin [].
Definition brick_tile : Node float :=
  MkNode (IsRigidbodyNode brick) origin
         [MkNode (IsSpriteNode (1, 1)) origin []].

(** The prototypes of [CreateNodeMap]: bricks for '#', path for ' '. *)
Definition nodesMap : gmap ascii (Node float) :=
  <["#"%char := brick_tile]> (<[" "%char := sprite_tile]> ∅).

(** A level of two lines, "# #" and "##". *)
Definition level : string := "# #" +:+ String "010" "##".

End Sample.

(** ** More of PlayerNode *)

(** Modelled from the spec: [RigidbodyNode::SetIsTrigger] and
    [RigidbodyNode::SetIsKinematic] (RigidbodyNode.cpp is not part of the
    sources at hand), which set the flag. *)
Definition SetIsTrigger {F} (b : Body F) (v : bool) : Body F :=
  MkBody (velocity b) (acceleration b) (isKinematic b) v
         (overlappedNodesThisFrame b).
Definition SetIsKinematic {F} (b : Body F) (v : bool) : Body F :=
  MkBody (velocity b) (acceleration b) v (isTrigger b)
         (overlappedNodesThisFrame b).

(** A player: the position of its transform, its rigid body, its tuning
    constants and its children. *)
Record PlayerNode (F : Type) : Type := MkPlayerNode {
  player_position : vec3 F;
  player_body : Body F;
  player_tuning : Tuning F;
  player_children : list (Node F)
}.
Arguments MkPlayerNode {F} _ _ _ _.
Arguments player_position {F} _.
Arguments player_body {F} _.
Arguments player_tuning {F} _.
Arguments player_children {F} _.

Section PlayerConstructor.
Context {F : Type} `{FloatArith F}.

(** [PlayerNode::PlayerNode].  [default_position] is the position of a
    transform that has not been moved and [default_body] the rigid body of a
    [RigidbodyNode] just constructed; [debug] says whether [DEBUG] is
    defined.  The trigger is shared between the local [jumpTrigger] and the
    player's children, so the sprite added to it under [DEBUG], after
    [AddChild(jumpTrigger)], is in the player's tree. *)
Definition PlayerNode_new (debug : bool) (default_position : vec3 F)
           (default_body : Body F) : PlayerNode F :=
  let playerSpriteNode := MkNode (IsSpriteNode (0, 2)) default_position [] in
  let cameraNode := MkNode IsCameraNode default_position [] in
  let debugSpriteNode :=
    MkNode (IsSpriteNode (2, 0)) (Vec3 (of_int 0) (of_int 0) (of_int 10)) [] in
  let jumpTrigger :=
    MkNode (IsRigidbodyNode (SetIsTrigger default_body true))
           (Vec3 (of_int 0) (fopp (lit 1 2)) (of_int 0))
           (if debug then [debugSpriteNode] else []) in
  MkPlayerNode (Vec3 (of_int 0) (of_int 0) (of_int 2))
               default_body
               constructed_tuning
               [playerSpriteNode; cameraNode; jumpTrigger].

(** [PlayerNode::Update] on a player. *)
Definition PlayerNode_frame (k : Keys) (deltaSeconds : F)
           (overlaps : list NodeRef) (p : PlayerNode F)
  : result (PlayerNode F) :=
  match PlayerNode_Update k deltaSeconds overlaps (player_children p)
                          (player_tuning p) (player_position p)
                          (player_body p) with
  | Faulted f => Faulted f
  | Done (position, body) =>
      Done (MkPlayerNode position body (player_tuning p) (player_children p))
  end.
End PlayerConstructor.

(** ** MainEngine *)

Section Scene.
Context {F : Type} `{FloatArith F}.

(** [CreateNodeMap]: the prototypes of the two tiles, a kinematic rigid body
    with the brick sprite as its child for '#' and the path sprite for ' '.
    [default_position] and [default_body] are as in [PlayerNode_new]. *)
Definition CreateNodeMap (default_position : vec3 F) (default_body : Body F)
  : gmap ascii (Node F) :=
  let brick := MkNode (IsSpriteNode (1, 1)) default_position [] in
  let path := MkNode (IsSpriteNode (0, 1)) default_position [] in
  let brickRigidBody :=
    MkNode (IsRigidbodyNode (SetIsKinematic default_body true))
           default_position [brick] in
  <[" "%char := path]> (<["#"%char := brickRigidBody]> ∅).

End Scene.

(** *** Start and stop *)

(** The calls to the windowing, OpenGL and GUI libraries that [Init] and
    [Stop] make, in the order of the text. *)
Inductive library_call : Type :=
| glfwSetErrorCallback
| glfwInit
| glfwWindowHint
| glfwCreateWindow
| glfwMakeContextCurrent
| glfwSwapInterval
| gladLoadGLLoader
| glEnable
| glBlendFunc
| stbi_set_flip_vertically_on_load
| InitializeImGui
| glClearColor
| make_SpriteRenderer
| make_Camera
| ImGui_ImplOpenGL3_Shutdown
| ImGui_ImplGlfw_Shutdown
| ImGui_DestroyContext
| glfwDestroyWindow
| glfwTerminate.

#[export] Instance library_call_eq_dec : EqDecision library_call.
Proof. solve_decision. Defined.

(** What the platform answers to the three calls [Init] checks. *)
Record Platform : Type := MkPlatform {
  glfwInit_succeeds : bool;
  glfwCreateWindow_succeeds : bool;
  gladLoadGLLoader_succeeds : bool
}.

(** The members of [MainEngine] that [Init] writes: whether [window] is not
    null, and whether [renderer] and [camera] hold an object. *)
Record Engine : Type := MkEngine {
  window : bool;
  renderer : bool;
  camera : bool
}.

(** [MainEngine::InitializeWindow]: the calls made, the engine and the value
    returned. *)
Definition InitializeWindow (pl : Platform) (e : Engine)
  : list library_call * Engine * Z :=
  let e := MkEngine (glfwCreateWindow_succeeds pl) (renderer e) (camera e) in
  if negb (window e)
  then ([glfwCreateWindow], e, 1)
  else ([glfwCreateWindow; glfwMakeContextCurrent; glfwSwapInterval], e, 0).

(** [MainEngine::Init]. *)
Definition Init (pl : Platform) (e : Engine)
  : list library_call * Engine * Z :=
  let calls := [glfwSetErrorCallback; glfwInit] in
  if negb (glfwInit_succeeds pl) then (calls, e, 1)
  else
    let calls := calls ++ [glfwWindowHint; glfwWindowHint; glfwWindowHint;
                           glfwWindowHint; glfwWindowHint] in
    let '(window_calls, e, code) := InitializeWindow pl e in
    let calls := calls ++ window_calls in
    if negb (code =? 0) then (calls, e, 1)
    else
      let calls := calls ++ [gladLoadGLLoader] in
      if negb (gladLoadGLLoader_succeeds pl) then (calls, e, 1)
      else
        let calls :=
          calls ++ [glEnable; glEnable; glBlendFunc;
                    stbi_set_flip_vertically_on_load; InitializeImGui;
                    glClearColor; make_SpriteRenderer; make_Camera] in
        (calls, MkEngine (window e) true true, 0).

(** [MainEngine::Stop], which the destructor calls. *)
Definition Stop (e : Engine) : list library_call :=
  let calls := [ImGui_ImplOpenGL3_Shutdown; ImGui_ImplGlfw_Shutdown;
                ImGui_DestroyContext] in
  if negb (window e) then calls
  else calls ++ [glfwDestroyWindow; glfwTerminate].

(** *** Grid files *)

(** A file written line by line, each line ended by a newline. *)
Definition unlines (lines : list (list ascii)) : list ascii :=
  concat (List.map (λ line, line ++ ["010"%char]) lines).

(** The characters of the cells. *)
Definition cell_characters (cs : list cell) : list ascii :=
  List.map cell_character cs.

(** The fault of the first character, in reading order, that the prototype
    map does not send to a live node: [std::out_of_range] if it is not a
    key, a null dereference if its pointer is null. *)
Fixpoint first_fault {F} (nodesMap : gmap ascii (option (Node F)))
         (chars : list ascii) : option fault :=
  match chars with
  | [] => None
  | ch :: rest =>
      match nodesMap !! ch with
      | None => Some OutOfRange
      | Some None => Some NullDereference
      | Some (Some _) => first_fault nodesMap rest
      end
  end.

(** What the prototype map holds for the character at which a fault
    arises: no entry, or a null pointer. *)
Definition entry_of_fault {F} (e : fault) : option (option (Node F)) :=
  match e with
  | OutOfRange => None
  | NullDereference => Some None
  end.

(** A line of [2^24 + 1] bricks. *)
Definition long_line : list ascii := repeat "#"%char (Z.to_nat (2 ^ 24 + 1)).

(** * Properties *)

(** ** Jump parameters *)

(** The sign of a rounded result is the sign handed to the rounding. *)
Lemma binary_round_aux_negb (s : bool) (m e : Z) (l : location) :
  binary_round_aux Binary32.prec Binary32.emax (negb s) m e l
  = SFopp (binary_round_aux Binary32.prec Binary32.emax s m e l).
Proof.
  unfold binary_round_aux.
  destruct (shr_fexp Binary32.prec Binary32.emax m e l) as [mrs' e'].
  destruct (shr_fexp Binary32.prec Binary32.emax _ e' loc_Exact)
    as [mrs'' e''].
  destruct (shr_m mrs'') as [|q|q]; [reflexivity| |reflexivity].
  destruct (e'' <=? Binary32.emax - Binary32.prec); reflexivity.
Qed.

(** In binary32 a quotient changes its sign with its numerator, whatever the
    operands: zeros, infinities and NaN included. *)
Lemma SFdiv_SFopp (a b : Binary32.float) :
  SFdiv Binary32.prec Binary32.emax (SFopp a) b
  = SFopp (SFdiv Binary32.prec Binary32.emax a b).
Proof.
  destruct a as [sa|sa| |sa ma ea], b as [sb|sb| |sb mb eb];
    try reflexivity; try (destruct sa, sb; reflexivity);
    try (destruct sa; reflexivity).
  unfold SFopp at 1. unfold SFdiv.
  destruct (SFdiv_core_binary Binary32.prec Binary32.emax
              (Z.pos ma) ea (Z.pos mb) eb) as [[mz ez] lz].
  rewrite <- binary_round_aux_negb. f_equal. destruct sa, sb; reflexivity.
Qed.

(** The binary32 values the constructor ends up with. *)
Lemma constructed_tuning_binary32 :
  constructed_tuning (F := Binary32.float)
  = MkTuning (S754_finite false 14680064 (-21))
             (S754_finite false 13421773 (-24))
             (S754_finite false 8388608 (-24))
             (S754_finite false 16311181 (-17))
             (S754_finite true 15858092 (-11)).
Proof. vm_compute. reflexivity. Qed.

(** C1, as the claim words it, does not hold of the float code.  With speed 5
    (distance 0.5, fall factor 0.8) the [jumpTime] of the code,
    [a + a * fallGravityFactor] rounded at each step, is [12079596 * 2^-28]:
    one unit in the last place above the closed form
    [(targetDistance/4)/playerSpeed * (1 + fallGravityFactor)] evaluated in
    the same arithmetic, [12079595 * 2^-28].  And for the constructor's
    values the gravity is not within 1e-5 of the closed-form value
    [-627200/81]: it is [37/41472], about 0.0009, above it, the spacing of
    binary32 near 7743 being [1/2048]. *)
Lemma SetJumpParameters_not_closed_form :
  (let t : Tuning Binary32.float :=
     MkTuning (of_int 5) (lit 4 5) (lit 1 2) (of_int 0) (of_int 0) in
   jumpTime (lit 1 2) t = S754_finite false 12079596 (-28)
   ∧ spec_jumpTime (lit 1 2) (playerSpeed t) (fallGravityFactor t)
     = S754_finite false 12079595 (-28)
   ∧ jumpTime (lit 1 2) t
     ≠ spec_jumpTime (lit 1 2) (playerSpeed t) (fallGravityFactor t))
  ∧ (let t : Tuning Binary32.float := constructed_tuning in
     (reference_gravityAcceleration == - (627200 # 81))%Q
     ∧ ¬ (Qabs (Binary32.to_Q (gravityAcceleration t)
                - reference_gravityAcceleration)
          <= 1 # 100000)%Q).
Proof.
  cbv zeta. split; [split; [|split]|split].
  - vm_compute. reflexivity.
  - vm_compute. reflexivity.
  - vm_compute. discriminate.
  - vm_compute. reflexivity.
  - vm_compute. intros Hle. apply Hle. reflexivity.
Qed.

(** C1: in binary32, for all arguments and all tuning fields (zeros,
    infinities and NaN included), [SetJumpParameters(targetHeight,
    targetDistance)] computes [jumpTime = a + a * fallGravityFactor] with
    [a = (targetDistance/4)/playerSpeed], every operation rounded on its own,
    [startJumpVelocity = 2*targetHeight/jumpTime] and
    [gravityAcceleration =
     -(startJumpVelocity/jumpTime)/buttonPressJumpGravityFactor], and leaves
    the speed and the two factors as they are.  For the constructor's values
    (height 2, distance 0.5, speed 7, factors 0.8 and 0.5) [jumpTime] is bit
    for bit the closed form
    [(targetDistance/4)/playerSpeed * (1 + fallGravityFactor)] evaluated in
    binary32; against the closed forms in exact arithmetic, [9/280], [1120/9]
    and [-627200/81], [jumpTime] and [startJumpVelocity] are within 1e-5 and
    [gravityAcceleration] is within 1e-3, not 1e-5: it is [37/41472] above. *)
Theorem SetJumpParameters_binary32 :
  (∀ (targetHeight targetDistance : Binary32.float)
     (t : Tuning Binary32.float),
     let t' := SetJumpParameters targetHeight targetDistance t in
     let a := fdiv (fdiv targetDistance (of_int 4)) (playerSpeed t) in
     let jt := jumpTime targetDistance t in
     jt = fadd a (fmul a (fallGravityFactor t))
     ∧ startJumpVelocity t' = spec_startJumpVelocity targetHeight jt
     ∧ gravityAcceleration t'
       = spec_gravityAcceleration (startJumpVelocity t') jt
                                  (buttonPressJumpGravityFactor t)
     ∧ playerSpeed t' = playerSpeed t
     ∧ fallGravityFactor t' = fallGravityFactor t
     ∧ buttonPressJumpGravityFactor t' = buttonPressJumpGravityFactor t)
  ∧ (let t : Tuning Binary32.float := constructor_tuning in
     let t' := SetJumpParameters (of_int 2) (lit 1 2) t in
     let jt := jumpTime (lit 1 2) t in
     jt = spec_jumpTime (lit 1 2) (playerSpeed t) (fallGravityFactor t)
     ∧ (reference_jumpTime == 9 # 280
        ∧ reference_startJumpVelocity == 1120 # 9
        ∧ reference_gravityAcceleration == - (627200 # 81)
        ∧ Qabs (Binary32.to_Q jt - reference_jumpTime) <= 1 # 100000
        ∧ Qabs (Binary32.to_Q (startJumpVelocity t')
                - reference_startJumpVelocity) <= 1 # 100000
        ∧ Qabs (Binary32.to_Q (gravityAcceleration t')
                - reference_gravityAcceleration) <= 1 # 1000
        ∧ Binary32.to_Q (gravityAcceleration t')
          - reference_gravityAcceleration == 37 # 41472)%Q).
Proof.
  split.
  - intros h d t t' a jt. subst t' a jt.
    split; [reflexivity|]. split; [reflexivity|].
    split; [|repeat split].
    unfold SetJumpParameters, spec_gravityAcceleration.
    cbn [gravityAcceleration startJumpVelocity buttonPressJumpGravityFactor].
    cbn [fdiv fopp binary32_arith]. rewrite SFdiv_SFopp. reflexivity.
  - cbv zeta. repeat split; vm_compute; first [reflexivity | discriminate].
Qed.

(** ** PlayerNode::Update *)

Section PlayerFacts.
Context {F : Type} `{FloatArith F}.

Lemma is_RigidbodyNode_true (n : Node F) :
  is_RigidbodyNode n = true ↔ is_Some (as_RigidbodyNode n).
Proof. unfold is_RigidbodyNode. apply bool_decide_eq_true. Qed.

Lemma is_RigidbodyNode_false (n : Node F) :
  is_RigidbodyNode n = false ↔ as_RigidbodyNode n = None.
Proof.
  unfold is_RigidbodyNode. rewrite bool_decide_eq_false.
  symmetry. apply eq_None_not_Some.
Qed.

(** The trigger is the body of the first child that is a rigid body. *)
Lemma jumpTrigger_first (pre post : list (Node F)) (n : Node F)
      (trigger : Body F) :
  Forall (λ c, as_RigidbodyNode c = None) pre →
  as_RigidbodyNode n = Some trigger →
  jumpTrigger (pre ++ n :: post) = Some trigger.
Proof.
  intros Hpre Hn. unfold jumpTrigger, GetChild.
  induction Hpre as [|c pre Hc _ IH]; simpl.
  - assert (is_RigidbodyNode n = true) as ->
      by (apply is_RigidbodyNode_true; rewrite Hn; eauto).
    exact Hn.
  - apply is_RigidbodyNode_false in Hc. rewrite Hc. exact IH.
Qed.

(** Without such a child the lookup gives null. *)
Lemma jumpTrigger_none (cs : list (Node F)) :
  Forall (λ c, as_RigidbodyNode c = None) cs ↔ jumpTrigger cs = None.
Proof.
  unfold jumpTrigger, GetChild. induction cs as [|c cs IH]; simpl.
  - split; [reflexivity | constructor].
  - destruct (is_RigidbodyNode c) eqn:Hc.
    + apply is_RigidbodyNode_true in Hc as [b Hb]. simpl. rewrite Hb. split.
      * intros Hall. inversion Hall; congruence.
      * discriminate.
    + apply is_RigidbodyNode_false in Hc. rewrite <- IH. split.
      * intros Hall. inversion Hall; assumption.
      * intros Hall. constructor; assumption.
Qed.

Lemma GetChild_none (cs : list (Node F)) :
  Forall (λ c, is_RigidbodyNode c = false) cs →
  GetChild is_RigidbodyNode cs = None.
Proof.
  unfold GetChild. induction 1 as [|c cs Hc _ IH]; simpl; [reflexivity|].
  rewrite Hc. exact IH.
Qed.

Lemma isGrounded_spec (trigger : Body F) :
  isGrounded trigger = true ↔ overlappedNodesThisFrame trigger ≠ [].
Proof.
  unfold isGrounded. rewrite negb_true_iff, bool_decide_eq_false. reflexivity.
Qed.

(** The jump leaves a body that is not grounded as it was. *)
Lemma jump_airborne (input : vec2 F) (t : Tuning F) (b : Body F) :
  jump input false t b = b.
Proof. unfold jump. rewrite andb_false_r. reflexivity. Qed.

(** What [Update_controls] returns when the trigger is there. *)
Lemma Update_controls_done (k : Keys) (cs : list (Node F)) (t : Tuning F)
      (b : Body F) (trigger : Body F) :
  jumpTrigger cs = Some trigger →
  Update_controls k cs t b
  = let input := GetMovementInput k in
    let grounded := isGrounded trigger in
    let b1 := jump input grounded t b in
    Done (SetAcceleration b1
            (Vec2 (horizontal_acceleration input t b)
                  (vertical_acceleration input grounded t b1))).
Proof. intros Ht. unfold Update_controls. rewrite Ht. reflexivity. Qed.

Lemma Update_controls_inv (k : Keys) (cs : list (Node F)) (t : Tuning F)
      (b b' : Body F) :
  Update_controls k cs t b = Done b' →
  ∃ trigger, jumpTrigger cs = Some trigger.
Proof.
  unfold Update_controls. destruct (jumpTrigger cs) as [trigger|]; [eauto|].
  discriminate.
Qed.

Lemma PlayerNode_Update_inv (k : Keys) (dt : F) (ov : list NodeRef)
      (cs : list (Node F)) (t : Tuning F) (p : vec3 F) (b : Body F)
      (r : vec3 F * Body F) :
  PlayerNode_Update k dt ov cs t p b = Done r →
  ∃ b', Update_controls k cs t b = Done b'
        ∧ r = RigidbodyNode_Update dt ov p b'.
Proof.
  unfold PlayerNode_Update.
  destruct (Update_controls k cs t b) as [b'|f]; [|discriminate].
  intros [= <-]. eauto.
Qed.
End PlayerFacts.

(** What the keys give in binary32: each axis is -1, 0 or 1, and the
    horizontal input is non-zero exactly when one of A and D is down. *)
Lemma GetMovementInput_binary32 (k : Keys) :
  let input : vec2 Binary32.float := GetMovementInput k in
  x input = (if KEY_A k then if KEY_D k then of_int 0 else of_int (-1)
             else if KEY_D k then of_int 1 else of_int 0)
  ∧ y input = (if KEY_W k then if KEY_S k then of_int 0 else of_int 1
               else if KEY_S k then of_int (-1) else of_int 0)
  ∧ flt (of_int 0) (fabs (x input)) = xorb (KEY_A k) (KEY_D k)
  ∧ flt (of_int 0) (y input) = KEY_W k && negb (KEY_S k).
Proof. destruct k as [[] [] [] []]; vm_compute; auto. Qed.

(** C2: in a call of [PlayerNode::Update] the vertical acceleration handed to
    the integration of [RigidbodyNode::Update] is [gravityAcceleration],
    multiplied by [fallGravityFactor] exactly when the player is not grounded
    and its vertical velocity is negative, and then multiplied by
    [buttonPressJumpGravityFactor] exactly when the vertical input is
    positive. *)
Theorem Update_vertical_acceleration {F : Type} `{FloatArith F}
        (k : Keys) (dt : F) (ov : list NodeRef) (cs : list (Node F))
        (t : Tuning F) (p : vec3 F) (b : Body F) (r : vec3 F * Body F) :
  PlayerNode_Update k dt ov cs t p b = Done r →
  ∃ (trigger b' : Body F),
    jumpTrigger cs = Some trigger
    ∧ Update_controls k cs t b = Done b'
    ∧ r = RigidbodyNode_Update dt ov p b'
    ∧ y (acceleration b')
      = match negb (isGrounded trigger) && flt (y (velocity b)) (of_int 0),
              flt (of_int 0) (y (GetMovementInput k)) with
        | false, false => gravityAcceleration t
        | true, false => fmul (gravityAcceleration t) (fallGravityFactor t)
        | false, true =>
            fmul (gravityAcceleration t) (buttonPressJumpGravityFactor t)
        | true, true =>
            fmul (fmul (gravityAcceleration t) (fallGravityFactor t))
                 (buttonPressJumpGravityFactor t)
        end.
Proof.
  intros Hr. apply PlayerNode_Update_inv in Hr as (b' & Hb' & ->).
  destruct (Update_controls_inv _ _ _ _ _ Hb') as [trigger Ht].
  exists trigger, b'. repeat split; try assumption.
  rewrite (Update_controls_done _ _ _ _ _ Ht) in Hb'. cbv zeta in Hb'.
  injection Hb' as <-. cbn [SetAcceleration acceleration y].
  unfold vertical_acceleration.
  destruct (isGrounded trigger); cbn [negb andb].
  - destruct (flt (of_int 0) (y (GetMovementInput k))); reflexivity.
  - rewrite jump_airborne.
    destruct (flt (y (velocity b)) (of_int 0)),
             (flt (of_int 0) (y (GetMovementInput k))); reflexivity.
Qed.

(** A falling player in the air, with W and D held: both factors apply. *)
Lemma Update_vertical_acceleration_witness :
  ∃ b', Update_controls Sample.keys_W_D
          (Sample.player_children Sample.trigger_in_air)
          constructed_tuning Sample.falling_body = Done b'
        ∧ y (acceleration b')
          = fmul (fmul (gravityAcceleration constructed_tuning)
                       (fallGravityFactor constructed_tuning))
                 (buttonPressJumpGravityFactor constructed_tuning).
Proof.
  destruct (Update_vertical_acceleration
              Sample.keys_W_D Sample.frame []
              (Sample.player_children Sample.trigger_in_air)
              constructed_tuning Sample.origin Sample.falling_body _ eq_refl)
    as (trigger & b' & Ht & Hb' & _ & Hy).
  exists b'. split; [exact Hb'|]. rewrite Hy.
  vm_compute in Ht. injection Ht as <-. reflexivity.
Defined.

(** C3: in a call of [PlayerNode::Update] on a player whose first rigid-body
    child is [n], the jump is taken exactly when the vertical input is
    positive and the overlap set of [n] is not empty (the player is
    grounded); it sets the vertical velocity to [startJumpVelocity] and keeps
    the horizontal velocity; otherwise the velocity is as it was. *)
Theorem Update_grounding_and_jump {F : Type} `{FloatArith F}
        (k : Keys) (pre post : list (Node F)) (n : Node F) (t : Tuning F)
        (b trigger : Body F) :
  Forall (λ c, as_RigidbodyNode c = None) pre →
  as_RigidbodyNode n = Some trigger →
  ∃ b' : Body F,
    Update_controls k (pre ++ n :: post) t b = Done b'
    ∧ (isGrounded trigger = true ↔ overlappedNodesThisFrame trigger ≠ [])
    ∧ (flt (of_int 0) (y (GetMovementInput k)) = true
       ∧ overlappedNodesThisFrame trigger ≠ [] →
       velocity b' = Vec2 (x (velocity b)) (startJumpVelocity t))
    ∧ (¬ (flt (of_int 0) (y (GetMovementInput k)) = true
          ∧ overlappedNodesThisFrame trigger ≠ []) →
       velocity b' = velocity b).
Proof.
  intros Hpre Hn.
  pose proof (jumpTrigger_first pre post n trigger Hpre Hn) as Ht.
  rewrite (Update_controls_done _ _ _ _ _ Ht). cbv zeta.
  eexists. split; [reflexivity|]. split; [apply isGrounded_spec|].
  cbn [SetAcceleration velocity]. unfold jump.
  pose proof (isGrounded_spec trigger) as Hg.
  destruct (flt (of_int 0) (y (GetMovementInput k))),
           (isGrounded trigger); cbn [andb]; split;
    try reflexivity; intros Hj.
  - exfalso. apply Hj. split; [reflexivity|]. apply Hg. reflexivity.
  - destruct Hj as [_ Hj]. apply Hg in Hj. discriminate.
  - destruct Hj as [Hj _]. discriminate.
  - destruct Hj as [Hj _]. discriminate.
Qed.

(** W held on the ground: the player takes off at [startJumpVelocity]. *)
Lemma Update_grounding_and_jump_witness :
  ∃ b', Update_controls Sample.keys_W_D
          (Sample.player_children Sample.trigger_on_ground)
          constructed_tuning Sample.falling_body = Done b'
        ∧ velocity b' = Vec2 (of_int 3) (startJumpVelocity constructed_tuning).
Proof.
  destruct (Update_grounding_and_jump (F := Binary32.float) Sample.keys_W_D
              [ MkNode (IsSpriteNode (0, 2)) Sample.origin [];
                MkNode IsCameraNode Sample.origin [] ]
              []
              (MkNode (IsRigidbodyNode Sample.trigger_on_ground)
                      (Vec3 (of_int 0) (fopp (lit 1 2)) (of_int 0)) [])
              constructed_tuning Sample.falling_body Sample.trigger_on_ground)
    as (b' & Hb' & _ & Hjump & _).
  - repeat constructor.
  - reflexivity.
  - exists b'. split; [exact Hb'|]. apply Hjump. split; [reflexivity|].
    discriminate.
Defined.

(** C4: in a call of [PlayerNode::Update] the horizontal acceleration is set
    to [input.x * 100] if the magnitude of the horizontal velocity is below
    [playerSpeed] and the horizontal input is not zero, and to the horizontal
    velocity times [-10] in every other case; for the input read from the
    keys, [std::abs(input.x) > 0] says that it is not zero. *)
Theorem Update_horizontal_acceleration {F : Type} `{FloatArith F}
        (k : Keys) (cs : list (Node F)) (t : Tuning F) (b b' : Body F) :
  Update_controls k cs t b = Done b' →
  x (acceleration b')
  = (if flt (fabs (x (velocity b))) (playerSpeed t)
        && flt (of_int 0) (fabs (x (GetMovementInput k)))
     then fmul (x (GetMovementInput k)) (of_int 100)
     else fmul (x (velocity b)) (fopp (of_int 10)))
  ∧ ∀ k' : Keys,
      let input : vec2 Binary32.float := GetMovementInput k' in
      flt (of_int 0) (fabs (x input)) = true ↔ x input ≠ of_int 0.
Proof.
  intros Hb'. split.
  - destruct (Update_controls_inv _ _ _ _ _ Hb') as [trigger Ht].
    rewrite (Update_controls_done _ _ _ _ _ Ht) in Hb'. cbv zeta in Hb'.
    injection Hb' as <-. reflexivity.
  - intros k'. destruct k' as [[] [] [] []]; vm_compute; split;
      congruence.
Qed.

(** Moving right at 3 units with D held, below the speed of 7: the
    acceleration is 100. *)
Lemma Update_horizontal_acceleration_witness :
  ∃ b', Update_controls Sample.keys_W_D
          (Sample.player_children Sample.trigger_on_ground)
          constructed_tuning Sample.falling_body = Done b'
        ∧ x (acceleration b') = of_int 100.
Proof.
  eexists. split; [vm_compute; reflexivity|].
  refine (eq_trans
            (proj1 (Update_horizontal_acceleration Sample.keys_W_D
                      (Sample.player_children Sample.trigger_on_ground)
                      constructed_tuning Sample.falling_body _ eq_refl)) _).
  vm_compute. reflexivity.
Defined.

(** At the speed limit the input no longer accelerates: the velocity is
    damped. *)
Lemma Update_horizontal_acceleration_at_speed :
  ∃ b', Update_controls Sample.keys_W_D
          (Sample.player_children Sample.trigger_on_ground)
          constructed_tuning
          (MkBody (Vec2 (of_int 7) (of_int 0)) Sample.still false false [])
        = Done b'
        ∧ x (acceleration b') = of_int (-70).
Proof. eexists. split; vm_compute; reflexivity. Qed.

(** C5, as the code has it: for a player without a child that is a rigid
    body the lookup returns null, and [PlayerNode::Update] calls
    [GetOverlappedNodesThisFrame] through that null pointer: the call faults
    and does not complete. *)
Theorem Update_without_trigger_faults {F : Type} `{FloatArith F}
        (k : Keys) (dt : F) (ov : list NodeRef) (cs : list (Node F))
        (t : Tuning F) (p : vec3 F) (b : Body F) :
  Forall (λ c, is_RigidbodyNode c = false) cs →
  GetChild is_RigidbodyNode cs = None
  ∧ jumpTrigger cs = None
  ∧ Update_controls k cs t b = Faulted NullDereference
  ∧ PlayerNode_Update k dt ov cs t p b = Faulted NullDereference.
Proof.
  intros Hcs. pose proof (GetChild_none cs Hcs) as Hget.
  assert (jumpTrigger cs = None) as Ht
    by (unfold jumpTrigger; rewrite Hget; reflexivity).
  repeat split; try assumption.
  - unfold Update_controls. rewrite Ht. reflexivity.
  - unfold PlayerNode_Update, Update_controls. rewrite Ht. reflexivity.
Qed.

Lemma Update_without_trigger_faults_witness :
  Forall (λ c, is_RigidbodyNode c = false) Sample.orphan_children
  ∧ PlayerNode_Update Sample.keys_none Sample.frame [] Sample.orphan_children
      constructed_tuning Sample.origin Sample.falling_body
    = Faulted NullDereference.
Proof.
  assert (Forall (λ c : Node Binary32.float, is_RigidbodyNode c = false)
                 Sample.orphan_children) as Hcs
    by (repeat constructor).
  split; [exact Hcs|].
  exact (proj2 (proj2 (proj2
           (Update_without_trigger_faults Sample.keys_none Sample.frame []
              Sample.orphan_children constructed_tuning Sample.origin
              Sample.falling_body Hcs)))).
Defined.

(** C5 as stated fails: a player with only its sprite and its camera has no
    child that is a rigid body, and [Update] does not complete on it. *)
Lemma Update_orphan_does_not_complete :
  Forall (λ c, as_RigidbodyNode c = None) Sample.orphan_children
  ∧ ¬ ∃ r, PlayerNode_Update Sample.keys_none Sample.frame []
             Sample.orphan_children constructed_tuning Sample.origin
             Sample.falling_body = Done r.
Proof.
  split; [repeat constructor|].
  intros [r Hr]. vm_compute in Hr. discriminate Hr.
Qed.

(** With the trigger in place the same call completes. *)
Lemma Update_completes_iff_trigger {F : Type} `{FloatArith F}
      (k : Keys) (dt : F) (ov : list NodeRef) (cs : list (Node F))
      (t : Tuning F) (p : vec3 F) (b : Body F) :
  (∃ r, PlayerNode_Update k dt ov cs t p b = Done r)
  ↔ ∃ trigger, jumpTrigger cs = Some trigger.
Proof.
  split.
  - intros [r Hr]. apply PlayerNode_Update_inv in Hr as (b' & Hb' & _).
    eapply Update_controls_inv, Hb'.
  - intros [trigger Ht]. unfold PlayerNode_Update.
    rewrite (Update_controls_done _ _ _ _ _ Ht). cbv zeta. eauto.
Qed.

(** ** RigidbodyNode::Update *)

(** C9: one [Update] of a rigid body whose [isKinematic] flag is set leaves
    its position as it was, whatever its velocity and acceleration. *)
Theorem kinematic_position_unchanged {F : Type} `{FloatArith F}
        (dt : F) (ov : list NodeRef) (p : vec3 F) (b : Body F) :
  isKinematic b = true →
  (RigidbodyNode_Update dt ov p b).1 = p.
Proof.
  intros Hk. unfold RigidbodyNode_Update. rewrite Hk. reflexivity.
Qed.

(** A kinematic brick that has been given a velocity and an acceleration
    stays at the origin. *)
Lemma kinematic_position_unchanged_witness :
  (RigidbodyNode_Update Sample.frame []
     Sample.origin
     (MkBody (Vec2 (of_int 3) (of_int (-2))) (Vec2 (of_int 0) (of_int (-9)))
             true false [])).1
  = Sample.origin.
Proof.
  apply (kinematic_position_unchanged (F := Binary32.float)). reflexivity.
Defined.

(** The same body, not kinematic, moves. *)
Lemma dynamic_position_changes :
  (RigidbodyNode_Update Sample.frame []
     Sample.origin
     (MkBody (Vec2 (of_int 3) (of_int (-2))) (Vec2 (of_int 0) (of_int (-9)))
             false false [])).1
  ≠ Sample.origin.
Proof. vm_compute. discriminate. Qed.

(** ** Map *)

Section MapFacts.
Context {F : Type} `{FloatArith F}.
Implicit Types (nodesMap : gmap ascii (Node F)) (this : Map F).
Implicit Types (line : list ascii) (lines : list (list ascii)).
Implicit Types (cs : list cell).

Lemma tiles_of_cells_app nodesMap cs1 cs2 :
  tiles_of_cells nodesMap (cs1 ++ cs2)
  = tiles_of_cells nodesMap cs1 ++ tiles_of_cells nodesMap cs2.
Proof. apply omap_app. Qed.

Lemma cells_before_fault_all nodesMap cs :
  forallb (has_prototype nodesMap) cs = true →
  cells_before_fault nodesMap cs = cs.
Proof.
  induction cs as [|c cs IH]; simpl; [reflexivity|].
  intros [Hc Hcs]%andb_true_iff. rewrite Hc. f_equal. apply IH, Hcs.
Qed.

Lemma cells_before_fault_app nodesMap cs1 cs2 :
  cells_before_fault nodesMap (cs1 ++ cs2)
  = if forallb (has_prototype nodesMap) cs1
    then cs1 ++ cells_before_fault nodesMap cs2
    else cells_before_fault nodesMap cs1.
Proof.
  induction cs1 as [|c cs1 IH]; simpl; [reflexivity|].
  destruct (has_prototype nodesMap c); simpl; [|reflexivity].
  rewrite IH. destruct (forallb _ cs1); reflexivity.
Qed.


(** On cells that all have a prototype the tiles are in step with the
    cells. *)
Lemma tiles_of_mapped_cells nodesMap cs :
  forallb (has_prototype nodesMap) cs = true →
  Forall2 (is_tile_of nodesMap) cs (tiles_of_cells nodesMap cs).
Proof.
  induction cs as [|c cs IH]; simpl; [constructor|].
  intros [Hc Hcs]%andb_true_iff.
  apply bool_decide_eq_true in Hc as [prototype Hp].
  unfold tiles_of_cells. simpl. unfold tile_of_cell at 1. rewrite Hp. simpl.
  constructor; [|apply IH, Hcs].
  exists prototype. split; [exact Hp | reflexivity].
Qed.

Lemma row_cells_length r c line :
  length (row_cells r c line) = length line.
Proof.
  revert c. induction line as [|ch line IH]; intros c; simpl; [reflexivity|].
  rewrite IH. reflexivity.
Qed.

Lemma has_prototype_Some nodesMap r c ch prototype :
  nodesMap !! ch = Some prototype → has_prototype nodesMap (r, c, ch) = true.
Proof. intros Hp. apply bool_decide_eq_true_2. cbn. rewrite Hp. eauto. Qed.

Lemma has_prototype_None nodesMap r c ch :
  nodesMap !! ch = None → has_prototype nodesMap (r, c, ch) = false.
Proof.
  intros Hp. apply bool_decide_eq_false_2. cbn. rewrite Hp.
  apply is_Some_None.
Qed.

Lemma tiles_of_cells_cons nodesMap r c ch prototype cs :
  nodesMap !! ch = Some prototype →
  tiles_of_cells nodesMap ((r, c, ch) :: cs)
  = make_tile prototype (int_wrap c) (int_wrap r)
    :: tiles_of_cells nodesMap cs.
Proof.
  intros Hp. unfold tiles_of_cells. cbn [omap list_omap].
  unfold tile_of_cell at 1. cbn [cell_character cell_column cell_line fst snd].
  rewrite Hp. reflexivity.
Qed.

Lemma Map_eta this : MkMap (size this) (tiles this) = this.
Proof. destruct this; reflexivity. Qed.

(** A counter that has not left the range of [int] holds its count. *)
Lemma int_wrap_small (z : Z) : - 2 ^ 31 ≤ z < 2 ^ 31 → int_wrap z = z.
Proof. intros Hz. unfold int_wrap. rewrite Z.mod_small by lia. lia. Qed.

Lemma int_wrap_0 : int_wrap 0 = 0.
Proof. reflexivity. Qed.

(** Counting on from a wrapped counter. *)
Lemma int_wrap_add_l (a b : Z) : int_wrap (int_wrap a + b) = int_wrap (a + b).
Proof.
  unfold int_wrap. f_equal.
  replace ((a + 2 ^ 31) mod 2 ^ 32 - 2 ^ 31 + b + 2 ^ 31)
    with ((a + 2 ^ 31) mod 2 ^ 32 + b) by lia.
  rewrite Zplus_mod_idemp_l. f_equal. lia.
Qed.

(** The inner loop on a map of live prototypes: it adds the tiles of the
    cells before the first character without a prototype, and throws if
    there is one.  [r] and [c] count the lines and the characters; the
    [int] counters hold them wrapped. *)
Lemma line_loop_spec nodesMap r line : ∀ c this,
  line_loop (Some <$> nodesMap) (int_wrap r) line (int_wrap c) this
  = (if forallb (has_prototype nodesMap) (row_cells r c line)
     then Normal else Thrown OutOfRange)
      (MkMap (size this)
             (tiles this
              ++ tiles_of_cells nodesMap
                   (cells_before_fault nodesMap (row_cells r c line))),
       int_wrap (c + Z.of_nat (length (cells_before_fault nodesMap
                                         (row_cells r c line))))).
Proof.
  induction line as [|ch line IH]; intros c this;
    cbn [line_loop row_cells forallb cells_before_fault].
  - cbn [tiles_of_cells omap list_omap length].
    rewrite app_nil_r, Z.add_0_r, Map_eta. reflexivity.
  - rewrite lookup_fmap. destruct (nodesMap !! ch) as [prototype|] eqn:Hch;
      cbn [fmap option_fmap option_map].
    + rewrite (has_prototype_Some _ r c _ _ Hch). cbn [andb].
      rewrite int_wrap_add_l, IH. cbn [AddChild size tiles length].
      rewrite (tiles_of_cells_cons _ _ _ _ _ _ Hch).
      rewrite <- app_assoc. cbn [app].
      rewrite Nat2Z.inj_succ, <- Z.add_1_l, Z.add_assoc. reflexivity.
    + rewrite (has_prototype_None _ r c _ Hch). cbn [andb].
      cbn [tiles_of_cells omap list_omap length].
      rewrite app_nil_r, Z.add_0_r, Map_eta. reflexivity.
Qed.

(** The outer loop on a grid whose cells all have a prototype. *)
Lemma file_loop_normal nodesMap lines : ∀ r this,
  forallb (has_prototype nodesMap) (cells_from r lines) = true →
  file_loop (Some <$> nodesMap) lines (int_wrap r) this
  = Normal
      (MkMap (Vec2 (foldl (λ w line,
                             std_max w
                               (of_int (int_wrap (Z.of_nat (length line)))))
                          (x (size this)) lines)
                   (y (size this)))
             (tiles this ++ tiles_of_cells nodesMap (cells_from r lines)),
       int_wrap (r + Z.of_nat (length lines))).
Proof.
  induction lines as [|line lines IH]; intros r this Hall;
    cbn [file_loop cells_from foldl length].
  - cbn [tiles_of_cells omap list_omap].
    rewrite app_nil_r, Z.add_0_r. destruct this as [[sx sy] ts]; reflexivity.
  - cbn [cells_from] in Hall. rewrite forallb_app in Hall.
    apply andb_true_iff in Hall as [Hrow Hrest].
    change (line_loop (Some <$> nodesMap) (int_wrap r) line 0 this)
      with (line_loop (Some <$> nodesMap) (int_wrap r) line (int_wrap 0) this).
    rewrite line_loop_spec. rewrite Hrow.
    rewrite (cells_before_fault_all _ _ Hrow), row_cells_length.
    rewrite int_wrap_add_l, IH by exact Hrest. cbn [size tiles set_x x y].
    rewrite tiles_of_cells_app, app_assoc. rewrite Z.add_0_l.
    do 2 f_equal. f_equal. lia.
Qed.

(** The outer loop on a grid with a cell that has no prototype. *)
Lemma file_loop_thrown nodesMap lines : ∀ r this,
  forallb (has_prototype nodesMap) (cells_from r lines) = false →
  ∃ sz r',
    file_loop (Some <$> nodesMap) lines (int_wrap r) this
    = Thrown OutOfRange
        (MkMap sz
           (tiles this
            ++ tiles_of_cells nodesMap
                 (cells_before_fault nodesMap (cells_from r lines))),
         r').
Proof.
  induction lines as [|line lines IH]; intros r this Hall;
    cbn [file_loop cells_from].
  - discriminate Hall.
  - cbn [cells_from] in Hall. rewrite forallb_app in Hall.
    change (line_loop (Some <$> nodesMap) (int_wrap r) line 0 this)
      with (line_loop (Some <$> nodesMap) (int_wrap r) line (int_wrap 0) this).
    rewrite line_loop_spec.
    rewrite cells_before_fault_app.
    destruct (forallb (has_prototype nodesMap) (row_cells r 0 line)) eqn:Hrow.
    + simpl in Hall.
      rewrite (cells_before_fault_all _ _ Hrow).
      rewrite int_wrap_add_l.
      edestruct (IH (r + 1)) as (sz & r' & ->); [exact Hall|].
      cbn [tiles]. rewrite tiles_of_cells_app, app_assoc. eauto.
    + eauto.
Qed.

Lemma Forall_forallb_has_prototype nodesMap cs :
  Forall (λ c, is_Some (nodesMap !! cell_character c)) cs ↔
  forallb (has_prototype nodesMap) cs = true.
Proof.
  induction cs as [|c cs IH]; simpl.
  - split; [reflexivity | constructor].
  - rewrite andb_true_iff, <- IH. unfold has_prototype at 1.
    rewrite bool_decide_eq_true. split.
    + intros Hall. inversion Hall; subst. split; assumption.
    + intros [Hc Hcs]. constructor; assumption.
Qed.

(** The constructor on a grid whose cells all have a prototype. *)
Lemma Map_new_normal (file : option string) nodesMap :
  forallb (has_prototype nodesMap) (cells (getlines file)) = true →
  Map_new file nodesMap
  = Constructed
      (MkMap (Vec2 (foldl (λ w line,
                             std_max w
                               (of_int (int_wrap (Z.of_nat (length line)))))
                          (of_int 0) (getlines file))
                   (of_int (int_wrap (Z.of_nat (length (getlines file))))))
             (tiles_of_cells nodesMap (cells (getlines file)))).
Proof.
  intros Hall. unfold Map_new, Map_construct.
  change (file_loop (Some <$> nodesMap) (getlines file) 0)
    with (file_loop (Some <$> nodesMap) (getlines file) (int_wrap 0)).
  rewrite file_loop_normal by exact Hall.
  reflexivity.
Qed.

(** The constructor on a grid with a cell that has no prototype. *)
Lemma Map_new_thrown (file : option string) nodesMap :
  forallb (has_prototype nodesMap) (cells (getlines file)) = false →
  ∃ sz,
    Map_new file nodesMap
    = Threw OutOfRange
        (MkMap sz (tiles_of_cells nodesMap
                     (cells_before_fault nodesMap (cells (getlines file))))).
Proof.
  intros Hall. unfold Map_new, Map_construct.
  change (file_loop (Some <$> nodesMap) (getlines file) 0)
    with (file_loop (Some <$> nodesMap) (getlines file) (int_wrap 0)).
  edestruct (file_loop_thrown nodesMap (getlines file) 0) as (sz & r' & ->);
    [exact Hall|].
  eauto.
Qed.
End MapFacts.

(** *** Counts held in floats *)

(** In binary32 the counts below [2^24] are exact: a count with [d] binary
    digits is stored with its digits shifted to the top of the 24-bit
    mantissa. *)
Module Binary32Facts.
Import Binary32.

Lemma digits2_pos_size (p : positive) : digits2_pos p = Pos.size p.
Proof. induction p; simpl; congruence. Qed.

Lemma iter_xO_mul (p n : positive) : Pos.iter xO p n = (p * 2 ^ n)%positive.
Proof.
  induction n using Pos.peano_ind.
  - simpl. lia.
  - rewrite Pos.iter_succ, IHn, Pos.pow_succ_r. lia.
Qed.

Lemma size_iter_xO (p n : positive) :
  Pos.size (Pos.iter xO p n) = (Pos.size p + n)%positive.
Proof.
  induction n using Pos.peano_ind.
  - simpl. lia.
  - rewrite Pos.iter_succ. simpl. rewrite IHn. lia.
Qed.

Lemma size_bounds (p : positive) :
  2 ^ (Z.pos (Pos.size p) - 1) ≤ Z.pos p < 2 ^ Z.pos (Pos.size p).
Proof.
  pose proof (Pos.size_gt p) as Hgt. pose proof (Pos.size_le p) as Hle.
  split.
  - assert (2 ^ Z.pos (Pos.size p) ≤ 2 * Z.pos p) as Hp.
    { rewrite <- Pos2Z.inj_pow. change (2 * Z.pos p) with (Z.pos p~0). lia. }
    replace (Z.pos (Pos.size p)) with (Z.succ (Z.pos (Pos.size p) - 1)) in Hp
      by lia.
    rewrite Z.pow_succ_r in Hp by lia. lia.
  - rewrite <- Pos2Z.inj_pow. lia.
Qed.

Lemma size_le_24 (p : positive) :
  Z.pos p < 2 ^ 24 → Z.pos (Pos.size p) ≤ 24.
Proof.
  intros Hp. destruct (size_bounds p) as [Hlo _].
  destruct (Z_le_gt_dec (Z.pos (Pos.size p)) 24) as [|Hgt]; [assumption|].
  assert (2 ^ 24 ≤ 2 ^ (Z.pos (Pos.size p) - 1))
    by (apply Z.pow_le_mono_r; lia).
  lia.
Qed.

Lemma size_lt_lt (a b : positive) :
  Z.pos (Pos.size a) < Z.pos (Pos.size b) → Z.pos a < Z.pos b.
Proof.
  intros Hs. destruct (size_bounds a) as [_ Ha].
  destruct (size_bounds b) as [Hb _].
  assert (2 ^ Z.pos (Pos.size a) ≤ 2 ^ (Z.pos (Pos.size b) - 1))
    by (apply Z.pow_le_mono_r; lia).
  lia.
Qed.

(** A mantissa that fills the 24 bits is not rounded. *)
Lemma binary_round_aux_exact (m : positive) (e : Z) :
  Pos.size m = 24%positive → (-23 ≤ e ≤ 0) →
  binary_round_aux prec emax false (Z.pos m) e loc_Exact
  = S754_finite false m e.
Proof.
  intros Hm He. unfold binary_round_aux, shr_fexp, fexp, emin, prec, emax.
  cbn [Zdigits2 shr_record_of_loc].
  rewrite digits2_pos_size, Hm.
  replace (Z.max (24 + e - 24) (3 - 128 - 24) - e) with 0 by lia.
  cbn [shr shr_m loc_of_shr_record round_nearest_even Zdigits2].
  rewrite digits2_pos_size, Hm.
  replace (Z.max (24 + e - 24) (3 - 128 - 24) - e) with 0 by lia.
  cbn [shr shr_m].
  assert ((e <=? 128 - 24) = true) as -> by (apply Z.leb_le; lia).
  reflexivity.
Qed.

Lemma of_Z_pos (p : positive) :
  Z.pos p < 2 ^ 24 →
  of_Z (Z.pos p)
  = S754_finite false (Z.to_pos (Z.pos p * 2 ^ shift p)) (- shift p).
Proof.
  intros Hp. pose proof (size_le_24 p Hp) as Hs.
  unfold of_Z, binary_normalize, binary_round, shift.
  rewrite digits2_pos_size. unfold fexp, emin, shl_align, prec, emax.
  replace (Z.max (Z.pos (Pos.size p) + 0 - 24) (3 - 128 - 24) - 0)
    with (Z.pos (Pos.size p) - 24) by lia.
  replace (Z.max (Z.pos (Pos.size p) + 0 - 24) (3 - 128 - 24))
    with (Z.pos (Pos.size p) - 24) by lia.
  destruct (Z.pos (Pos.size p) - 24) as [|q|q] eqn:Hq; try lia.
  - rewrite binary_round_aux_exact; [|lia|lia].
    replace (24 - Z.pos (Pos.size p)) with 0 by lia. simpl. f_equal. lia.
  - rewrite binary_round_aux_exact.
    + replace (24 - Z.pos (Pos.size p)) with (Z.pos q) by lia.
      rewrite iter_xO_mul. f_equal; lia.
    + rewrite size_iter_xO. lia.
    + lia.
Qed.

(** Comparing two converted counts is comparing the counts. *)
Lemma SFltb_of_Z (a b : Z) :
  0 ≤ a < 2 ^ 24 → 0 ≤ b < 2 ^ 24 →
  SFltb (of_Z a) (of_Z b) = (a <? b).
Proof.
  intros Ha Hb. destruct a as [|pa|pa], b as [|pb|pb]; try lia.
  - reflexivity.
  - rewrite (of_Z_pos pb) by lia. reflexivity.
  - rewrite (of_Z_pos pa) by lia. reflexivity.
  - rewrite (of_Z_pos pa), (of_Z_pos pb) by lia.
    pose proof (size_le_24 pa ltac:(lia)) as Hsa.
    pose proof (size_le_24 pb ltac:(lia)) as Hsb.
    unfold SFltb, SFcompare, shift.
    destruct (Z.compare_spec (- (24 - Z.pos (Pos.size pa)))
                             (- (24 - Z.pos (Pos.size pb))))
      as [Heq|Hlt|Hgt].
    + assert (Z.pos (Pos.size pa) = Z.pos (Pos.size pb)) as -> by lia.
      set (k := 24 - Z.pos (Pos.size pb)).
      assert (0 ≤ k) by (unfold k; lia).
      assert (0 < 2 ^ k) by (apply Z.pow_pos_nonneg; lia).
      change (Pos.compare_cont Eq) with Pos.compare.
      rewrite <- Z2Pos.inj_compare by lia.
      destruct (Z.compare_spec (Z.pos pa * 2 ^ k) (Z.pos pb * 2 ^ k));
        symmetry; [apply Z.ltb_ge | apply Z.ltb_lt | apply Z.ltb_ge]; nia.
    + symmetry. apply Z.ltb_lt. apply size_lt_lt. lia.
    + symmetry. apply Z.ltb_ge. apply Z.lt_le_incl, size_lt_lt. lia.
Qed.

Lemma exact_ints_binary32 : ExactInts float (2 ^ 24).
Proof.
  split; [lia | lia |]. intros a b Ha Hb. apply SFltb_of_Z; assumption.
Qed.
End Binary32Facts.

(** *** The constructor *)

Section MapClaims.
Context {F : Type} `{FloatArith F}.
Implicit Types (nodesMap : gmap ascii (Node F)) (this : Map F).
Implicit Types (cs : list cell).



(** The widest line, kept in a float. *)
Lemma widest_line `{!ExactInts F bound} (lines : list (list ascii)) :
  ∀ w : Z,
    0 ≤ w < bound →
    Forall (λ line, Z.of_nat (length line) < bound) lines →
    foldl (λ w line, std_max w (of_int (int_wrap (Z.of_nat (length line)))))
          (of_int w) lines
    = of_int (Z.max w (max_line_length lines)).
Proof.
  pose proof bound_int as Hint. unfold max_line_length.
  induction lines as [|line lines IH]; intros w Hw Hlines; simpl.
  - f_equal. lia.
  - inversion Hlines as [|? ? Hline Hrest]; subst.
    rewrite int_wrap_small by lia.
    unfold std_max at 2. rewrite flt_of_int by lia.
    destruct (Z.ltb_spec w (Z.of_nat (length line))).
    + rewrite IH by (assumption || lia). f_equal. lia.
    + rewrite IH by (assumption || lia). f_equal. lia.
Qed.
End MapClaims.

(** C6 as stated fails: in the one-line file "a#" the character '#' has a
    prototype and 'a' has none; no map is built, so '#' gets no tile. *)
Lemma Map_new_skips_nothing :
  cells (getlines (Some "a#"%string)) = [ (0, 0, "a"%char); (0, 1, "#"%char) ]
  ∧ is_Some (Sample.nodesMap !! "#"%char)
  ∧ Map_new (Some "a#"%string) Sample.nodesMap
    = Threw OutOfRange (MkMap (Vec2 (of_int 0) (of_int 0)) [])
  ∧ ¬ places_every_mapped_cell (Some "a#"%string) Sample.nodesMap.
Proof.
  split; [reflexivity|]. split; [vm_compute; eauto|].
  assert (Map_new (Some "a#"%string) Sample.nodesMap
          = Threw OutOfRange (MkMap (Vec2 (of_int 0) (of_int 0)) [])) as Hnew
    by (vm_compute; reflexivity).
  split; [exact Hnew|].
  intros (this & Hthis & _). rewrite Hnew in Hthis. discriminate Hthis.
Qed.



(** ** CollisionShapeFactory *)

Section FactoryFacts.
Context {F : Type}.
Implicit Types (h : Heap F) (s : CollisionShape F).

(** Creating a shape on a live factory returns that factory, and [Build]
    then returns the shape. *)
Lemma create_shape_chains h (this : nat) s :
  is_Some (factories h !! this) →
  ∃ h' a,
    create_shape this s h = Done (this, h')
    ∧ Build this h' = Done (Some a)
    ∧ shapes h' !! a = Some s.
Proof.
  intros [product Hthis]. unfold create_shape. rewrite Hthis.
  eexists _, _. split; [reflexivity|]. split.
  - unfold Build. cbn [factories]. rewrite lookup_insert_eq. reflexivity.
  - cbn [shapes]. apply lookup_insert_eq.
Qed.

(** Creating a shape leaves the shapes that exist as they are. *)
Lemma create_shape_preserves h (this : nat) s (r : nat) h' (a : nat) s0 :
  create_shape this s h = Done (r, h') →
  shapes h !! a = Some s0 →
  shapes h' !! a = Some s0.
Proof.
  unfold create_shape. destruct (factories h !! this); [|discriminate].
  intros [= <- <-] Ha. cbn [shapes]. rewrite lookup_insert_ne; [exact Ha|].
  intros Heq. pose proof (is_fresh (dom (shapes h))) as Hfresh.
  rewrite Heq in Hfresh. apply Hfresh, elem_of_dom. eauto.
Qed.

Lemma after_call_preserves (c : call F) h (a : nat) s0 :
  shapes h !! a = Some s0 → shapes (after_call c h) !! a = Some s0.
Proof.
  intros Ha. destruct c as [|this height width|this radius|this];
    cbn [after_call]; try exact Ha.
  - unfold CreateRectangleCollisionShape.
    destruct (create_shape this (Rectangle height width) h)
      as [[r h']|f] eqn:Hc; [|exact Ha].
    eapply create_shape_preserves; eassumption.
  - unfold CreateCircleCollisionShape.
    destruct (create_shape this (Circle radius) h)
      as [[r h']|f] eqn:Hc; [|exact Ha].
    eapply create_shape_preserves; eassumption.
Qed.

Lemma after_calls_preserves (cs : list (call F)) : ∀ h (a : nat) s0,
  shapes h !! a = Some s0 → shapes (after_calls cs h) !! a = Some s0.
Proof.
  unfold after_calls. induction cs as [|c cs IH]; intros h a s0 Ha; simpl.
  - exact Ha.
  - apply IH, after_call_preserves, Ha.
Qed.
End FactoryFacts.

(** C8: on a live factory, [CreateRectangleCollisionShape(height, width)]
    and [CreateCircleCollisionShape(radius)] each return the factory they
    were called on, and [Build()] then returns the shape just described; a
    shape that [Build()] has returned is the same after any further calls on
    any factory. *)
Theorem factory_chains_and_shapes_are_immutable {F : Type}
        (h : Heap F) (this : nat) :
  is_Some (factories h !! this) →
  (∀ height width : F,
     ∃ h' a,
       CreateRectangleCollisionShape this height width h = Done (this, h')
       ∧ Build this h' = Done (Some a)
       ∧ shapes h' !! a = Some (Rectangle height width))
  ∧ (∀ radius : F,
       ∃ h' a,
         CreateCircleCollisionShape this radius h = Done (this, h')
         ∧ Build this h' = Done (Some a)
         ∧ shapes h' !! a = Some (Circle radius))
  ∧ (∀ (a : nat) (s : CollisionShape F) (cs : list (call F)),
       Build this h = Done (Some a) →
       shapes h !! a = Some s →
       shapes (after_calls cs h) !! a = Some s).
Proof.
  intros Hthis. split; [|split].
  - intros height width. apply create_shape_chains, Hthis.
  - intros radius. apply create_shape_chains, Hthis.
  - intros a s cs _ Ha. apply after_calls_preserves, Ha.
Qed.

(** The chain of [PlayerNode]'s constructor,
    [CreateFactory()->CreateCircleCollisionShape(0.5f - (1.f/32.f))]: the
    call returns the factory made by [CreateFactory], whose product is the
    circle. *)
Lemma factory_chains_and_shapes_are_immutable_witness :
  let '(this, h) := CreateFactory (MkHeap (F := Binary32.float) ∅ ∅) in
  ∃ h' a,
    CreateCircleCollisionShape this Sample.player_radius h = Done (this, h')
    ∧ Build this h' = Done (Some a)
    ∧ shapes h' !! a = Some (Circle Sample.player_radius)
    ∧ shapes (after_calls [ CallCreateRectangle this (of_int 1) (of_int 1);
                            CallCreateFactory; CallBuild this ] h') !! a
      = Some (Circle Sample.player_radius).
Proof.
  destruct (CreateFactory (MkHeap (F := Binary32.float) ∅ ∅))
    as [this h] eqn:Hf.
  assert (is_Some (factories h !! this)) as Hthis.
  { unfold CreateFactory in Hf. injection Hf as <- <-. cbn [factories].
    rewrite lookup_insert_eq. eauto. }
  destruct (proj1 (proj2 (factory_chains_and_shapes_are_immutable h this
                            Hthis)) Sample.player_radius)
    as (h' & a & Hcreate & Hbuild & Hshape).
  exists h', a. repeat split; try assumption.
  assert (is_Some (factories h' !! this)) as Hthis'.
  { unfold Build in Hbuild. destruct (factories h' !! this); [eauto|].
    discriminate Hbuild. }
  exact (proj2 (proj2 (factory_chains_and_shapes_are_immutable h' this
                         Hthis')) a _ _ Hbuild Hshape).
Defined.

(** * Further properties *)

(** ** The keys *)

(** X1: [GetMovementInput] returns, on each axis, the difference of the two
    keys of that axis: D minus A and W minus S, so -1, 0 or 1, with opposite
    keys cancelling and a diagonal left unnormalised; exactly so in binary32
    and in exact arithmetic. *)
Theorem GetMovementInput_axes (k : Keys) :
  let dx := Z.b2z (KEY_D k) - Z.b2z (KEY_A k) in
  let dy := Z.b2z (KEY_W k) - Z.b2z (KEY_S k) in
  GetMovementInput (F := Binary32.float) k = Vec2 (of_int dx) (of_int dy)
  ∧ GetMovementInput (F := Q) k = Vec2 (of_int dx) (of_int dy).
Proof. destruct k as [[] [] [] []]; split; vm_compute; reflexivity. Qed.

(** ** The controls *)

Section ControlsFacts.
Context {F : Type} `{FloatArith F}.

Lemma jump_velocity_x (input : vec2 F) (g : bool) (t : Tuning F) (b : Body F) :
  x (velocity (jump input g t b)) = x (velocity b).
Proof. unfold jump. destruct (_ && _); reflexivity. Qed.

(** The jump changes nothing but the vertical velocity. *)
Lemma jump_frame (input : vec2 F) (g : bool) (t : Tuning F) (b : Body F) :
  acceleration (jump input g t b) = acceleration b
  ∧ isKinematic (jump input g t b) = isKinematic b
  ∧ isTrigger (jump input g t b) = isTrigger b
  ∧ overlappedNodesThisFrame (jump input g t b) = overlappedNodesThisFrame b.
Proof. unfold jump. destruct (_ && _); repeat split; reflexivity. Qed.

(** Jumping twice is jumping once. *)
Lemma jump_jump (input : vec2 F) (g : bool) (t : Tuning F) (b : Body F) :
  jump input g t (jump input g t b) = jump input g t b.
Proof.
  unfold jump. destruct (_ && _); [|reflexivity].
  destruct b as [[vx vy] a kin trig ov]. reflexivity.
Qed.

Lemma jump_SetAcceleration (input : vec2 F) (g : bool) (t : Tuning F)
      (b : Body F) (a : vec2 F) :
  jump input g t (SetAcceleration b a)
  = SetAcceleration (jump input g t b) a.
Proof. unfold jump. destruct (_ && _); reflexivity. Qed.

Lemma vertical_acceleration_velocity (input : vec2 F) (g : bool)
      (t : Tuning F) (b1 b2 : Body F) :
  velocity b1 = velocity b2 →
  vertical_acceleration input g t b1 = vertical_acceleration input g t b2.
Proof. intros Hv. unfold vertical_acceleration. rewrite Hv. reflexivity. Qed.

Lemma horizontal_acceleration_velocity (input : vec2 F) (t : Tuning F)
      (b1 b2 : Body F) :
  x (velocity b1) = x (velocity b2) →
  horizontal_acceleration input t b1 = horizontal_acceleration input t b2.
Proof. intros Hv. unfold horizontal_acceleration. rewrite Hv. reflexivity. Qed.

Lemma SetAcceleration_SetAcceleration (b : Body F) (a1 a2 : vec2 F) :
  SetAcceleration (SetAcceleration b a1) a2 = SetAcceleration b a2.
Proof. reflexivity. Qed.
End ControlsFacts.

(** X5: what [PlayerNode::Update] does before it calls the base class never
    changes the horizontal velocity, the kinematic and trigger flags or the
    overlap set of the player, and leaves the vertical velocity as it was or
    at [startJumpVelocity]. *)
Theorem Update_controls_frame {F : Type} `{FloatArith F}
        (k : Keys) (cs : list (Node F)) (t : Tuning F) (b b' : Body F) :
  Update_controls k cs t b = Done b' →
  x (velocity b') = x (velocity b)
  ∧ (y (velocity b') = y (velocity b)
     ∨ y (velocity b') = startJumpVelocity t)
  ∧ isKinematic b' = isKinematic b
  ∧ isTrigger b' = isTrigger b
  ∧ overlappedNodesThisFrame b' = overlappedNodesThisFrame b.
Proof.
  intros Hb'. destruct (Update_controls_inv _ _ _ _ _ Hb') as [trigger Ht].
  rewrite (Update_controls_done _ _ _ _ _ Ht) in Hb'. cbv zeta in Hb'.
  injection Hb' as <-. cbn [SetAcceleration velocity isKinematic isTrigger
                            overlappedNodesThisFrame].
  destruct (jump_frame (GetMovementInput k) (isGrounded trigger) t b)
    as (_ & Hk & Htr & Hov).
  split; [apply jump_velocity_x|]. split; [|repeat split; assumption].
  unfold jump. destruct (_ && _); [right | left]; reflexivity.
Qed.

Lemma Update_controls_frame_witness :
  ∃ b', Update_controls Sample.keys_W_D
          (Sample.player_children Sample.trigger_on_ground)
          constructed_tuning Sample.falling_body = Done b'
        ∧ x (velocity b') = of_int 3
        ∧ overlappedNodesThisFrame b' = [].
Proof.
  eexists. split; [vm_compute; reflexivity|].
  destruct (Update_controls_frame Sample.keys_W_D
              (Sample.player_children Sample.trigger_on_ground)
              constructed_tuning Sample.falling_body _ eq_refl)
    as (Hx & _ & _ & _ & Hov).
  split; [exact Hx | exact Hov].
Defined.

(** X6: the controls of [PlayerNode::Update] do not accumulate: their result
    does not depend on the acceleration the player had before, and running
    them again on their own result, with the same keys and the same trigger,
    gives that result again. *)
Theorem Update_controls_idempotent {F : Type} `{FloatArith F}
        (k : Keys) (cs : list (Node F)) (t : Tuning F) (b b' : Body F) :
  Update_controls k cs t b = Done b' →
  Update_controls k cs t b' = Done b'
  ∧ ∀ a : vec2 F, Update_controls k cs t (SetAcceleration b a) = Done b'.
Proof.
  intros Hb'. destruct (Update_controls_inv _ _ _ _ _ Hb') as [trigger Ht].
  rewrite (Update_controls_done _ _ _ _ _ Ht) in Hb'. cbv zeta in Hb'.
  injection Hb' as <-. split.
  - rewrite (Update_controls_done _ _ _ _ _ Ht). cbv zeta.
    rewrite jump_SetAcceleration, jump_jump.
    rewrite SetAcceleration_SetAcceleration. do 3 f_equal.
    apply horizontal_acceleration_velocity. cbn [SetAcceleration velocity].
    apply jump_velocity_x.
  - intros a. rewrite (Update_controls_done _ _ _ _ _ Ht). cbv zeta.
    rewrite jump_SetAcceleration, SetAcceleration_SetAcceleration.
    reflexivity.
Qed.

Lemma Update_controls_idempotent_witness :
  ∃ b', Update_controls Sample.keys_W_D
          (Sample.player_children Sample.trigger_on_ground)
          constructed_tuning Sample.falling_body = Done b'
        ∧ Update_controls Sample.keys_W_D
            (Sample.player_children Sample.trigger_on_ground)
            constructed_tuning b' = Done b'.
Proof.
  eexists. split; [vm_compute; reflexivity|].
  exact (proj1 (Update_controls_idempotent Sample.keys_W_D
                  (Sample.player_children Sample.trigger_on_ground)
                  constructed_tuning Sample.falling_body _ eq_refl)).
Defined.

(** X7: in binary32, for the input read from the keys, the horizontal
    acceleration set by [PlayerNode::Update] is 100 when D alone of A and D
    is down and the player is slower than [playerSpeed], -100 when A alone
    is down and the player is slower than [playerSpeed], and the horizontal
    velocity times -10 otherwise: A and D together count as no input. *)
Theorem Update_horizontal_acceleration_keys
        (k : Keys) (cs : list (Node Binary32.float))
        (t : Tuning Binary32.float) (b b' : Body Binary32.float) :
  Update_controls k cs t b = Done b' →
  x (acceleration b')
  = if flt (fabs (x (velocity b))) (playerSpeed t)
       && xorb (KEY_A k) (KEY_D k)
    then (if KEY_D k then of_int 100 else of_int (-100))
    else fmul (x (velocity b)) (fopp (of_int 10)).
Proof.
  intros Hb'. destruct (Update_controls_inv _ _ _ _ _ Hb') as [trigger Ht].
  rewrite (Update_controls_done _ _ _ _ _ Ht) in Hb'. cbv zeta in Hb'.
  injection Hb' as <-. cbn [SetAcceleration acceleration x].
  unfold horizontal_acceleration.
  destruct (GetMovementInput_binary32 k) as (Hx & _ & Habs & _).
  cbv zeta in Hx, Habs. rewrite Habs, Hx.
  destruct (flt (fabs (x (velocity b))) (playerSpeed t)); [|reflexivity].
  destruct (KEY_A k), (KEY_D k); cbn [andb xorb]; try reflexivity;
    vm_compute; reflexivity.
Qed.

(** A alone, below the speed limit: the acceleration is -100. *)
Lemma Update_horizontal_acceleration_keys_witness :
  ∃ b', Update_controls (MkKeys false false true false)
          (Sample.player_children Sample.trigger_in_air)
          constructed_tuning Sample.falling_body = Done b'
        ∧ x (acceleration b') = of_int (-100).
Proof.
  eexists. split; [vm_compute; reflexivity|].
  refine (eq_trans
            (Update_horizontal_acceleration_keys (MkKeys false false true false)
               (Sample.player_children Sample.trigger_in_air)
               constructed_tuning Sample.falling_body _ eq_refl) _).
  vm_compute. reflexivity.
Defined.

(** *** The sign of a rounded product *)

Section Signs.
Import Binary32.

Lemma shr_1_nonneg (mrs : shr_record) : 0 ≤ shr_m mrs → 0 ≤ shr_m (shr_1 mrs).
Proof.
  destruct mrs as [m r s]. destruct m as [|[p|p|]|p]; simpl; lia.
Qed.

Lemma iter_pos_shr_1_nonneg (p : positive) : ∀ mrs : shr_record,
  0 ≤ shr_m mrs → 0 ≤ shr_m (SpecFloat.iter_pos shr_1 p mrs).
Proof.
  induction p as [p IH|p IH|]; intros mrs Hm; simpl.
  - apply IH, IH, shr_1_nonneg, Hm.
  - apply IH, IH, Hm.
  - apply shr_1_nonneg, Hm.
Qed.

Lemma shr_fexp_nonneg (m e : Z) (l : location) :
  0 ≤ m → 0 ≤ shr_m (shr_fexp prec emax m e l).1.
Proof.
  intros Hm. unfold shr_fexp, shr.
  assert (0 ≤ shr_m (shr_record_of_loc m l)) as Hrec
    by (destruct l as [|[]]; exact Hm).
  destruct (fexp prec emax (Zdigits2 m + e) - e);
    cbn [fst]; [exact Hrec | apply iter_pos_shr_1_nonneg, Hrec | exact Hrec].
Qed.

Lemma round_nearest_even_nonneg (m : Z) (l : location) :
  0 ≤ m → 0 ≤ round_nearest_even m l.
Proof.
  intros Hm. destruct l as [|[]]; simpl; try lia.
  destruct (Z.even m); lia.
Qed.

(** Rounding a magnitude gives a zero, a finite float or an infinity, never
    a NaN, with the sign handed to the rounding. *)
Lemma binary_round_aux_sign (s : bool) (m e : Z) (l : location) :
  0 ≤ m → sign_bit (binary_round_aux prec emax s m e l) = Some s.
Proof.
  intros Hm. unfold binary_round_aux.
  pose proof (shr_fexp_nonneg m e l Hm) as H1.
  destruct (shr_fexp prec emax m e l) as [mrs' e'].
  cbn [fst] in H1.
  pose proof (shr_fexp_nonneg _ e' loc_Exact
                (round_nearest_even_nonneg _ (loc_of_shr_record mrs') H1))
    as H2.
  destruct (shr_fexp prec emax _ e' loc_Exact) as [mrs'' e''].
  cbn [fst] in H2.
  destruct (shr_m mrs'') as [|q|q]; [reflexivity| |lia].
  destruct (e'' <=? emax - prec); reflexivity.
Qed.

(** [v * -10.f]: a NaN for a NaN, and otherwise a float of the opposite
    sign. *)
Lemma brake_sign (v : float) :
  sign_bit (fmul v (fopp (of_int 10))) = negb <$> sign_bit v.
Proof.
  change (fopp (of_int 10)) with (S754_finite true 10485760 (-20)).
  destruct v as [s|s| |s m e];
    cbn [fmul binary32_arith SFmul sign_bit fmap option_fmap option_map].
  - destruct s; reflexivity.
  - destruct s; reflexivity.
  - reflexivity.
  - rewrite binary_round_aux_sign by lia. destruct s; reflexivity.
Qed.
End Signs.

(** X8: in binary32, when A and D are both down or both up, or when the
    test [abs(velocity.x) < playerSpeed] is false (the player is not slower
    than [playerSpeed], or one of the two is a NaN), the horizontal
    acceleration set by [PlayerNode::Update] is the horizontal velocity
    times -10, rounded.  It is a NaN for a NaN velocity; otherwise it is no
    NaN and its sign is opposite to the sign of the velocity, so that it
    never pushes the way the player moves; for a zero velocity it is zero
    and for an infinite velocity infinite. *)
Theorem Update_brakes
        (k : Keys) (cs : list (Node Binary32.float))
        (t : Tuning Binary32.float) (b b' : Body Binary32.float) :
  Update_controls k cs t b = Done b' →
  KEY_A k = KEY_D k ∨ flt (fabs (x (velocity b))) (playerSpeed t) = false →
  x (acceleration b') = fmul (x (velocity b)) (fopp (of_int 10))
  ∧ Binary32.sign_bit (x (acceleration b'))
    = negb <$> Binary32.sign_bit (x (velocity b))
  ∧ (∀ s, x (velocity b) = S754_zero s
          → x (acceleration b') = S754_zero (negb s))
  ∧ (∀ s, x (velocity b) = S754_infinity s
          → x (acceleration b') = S754_infinity (negb s)).
Proof.
  intros Hb' Hbrake.
  destruct (Update_controls_inv _ _ _ _ _ Hb') as [trigger Ht].
  rewrite (Update_controls_done _ _ _ _ _ Ht) in Hb'. cbv zeta in Hb'.
  injection Hb' as <-. cbn [SetAcceleration acceleration x].
  assert (horizontal_acceleration (GetMovementInput k) t b
          = fmul (x (velocity b)) (fopp (of_int 10))) as ->.
  { unfold horizontal_acceleration.
    destruct (GetMovementInput_binary32 k) as (_ & _ & Habs & _).
    cbv zeta in Habs. rewrite Habs.
    destruct Hbrake as [Hkeys | Hspeed].
    - rewrite Hkeys. destruct (KEY_D k); cbn [xorb];
        rewrite andb_false_r; reflexivity.
    - rewrite Hspeed. reflexivity. }
  split; [reflexivity|]. split; [apply brake_sign|].
  split; intros s ->; destruct s; reflexivity.
Qed.

(** No key down, moving right at 3: the acceleration is -30. *)
Lemma Update_brakes_witness :
  ∃ b', Update_controls Sample.keys_none
          (Sample.player_children Sample.trigger_in_air)
          constructed_tuning
          (MkBody (Vec2 (of_int 3) (of_int 0)) Sample.still false false [])
        = Done b'
        ∧ x (acceleration b') = of_int (-30)
        ∧ Binary32.sign_bit (x (acceleration b')) = Some true.
Proof.
  eexists. split; [vm_compute; reflexivity|].
  destruct (Update_brakes Sample.keys_none
              (Sample.player_children Sample.trigger_in_air)
              constructed_tuning
              (MkBody (Vec2 (of_int 3) (of_int 0)) Sample.still
                      false false [])
              _ eq_refl) as (Ha & Hs & _).
  - left. reflexivity.
  - split; [etransitivity; [exact Ha|] | etransitivity; [exact Hs|]];
      vm_compute; reflexivity.
Defined.

(** X9: a player built by the [PlayerNode] constructor has its jump trigger
    as its first child that is a rigid body, whatever children are added
    later, so [PlayerNode::Update] finds it and does not fault, for all keys
    and all states of the body. *)
Theorem constructed_player_has_trigger {F : Type} `{FloatArith F}
        (debug : bool) (default_position : vec3 F) (default_body : Body F)
        (later : list (Node F)) (k : Keys) (t : Tuning F) (b : Body F) :
  let cs := player_children
              (PlayerNode_new debug default_position default_body)
            ++ later in
  jumpTrigger cs = Some (SetIsTrigger default_body true)
  ∧ (∃ b', Update_controls k cs t b = Done b')
  ∧ ∀ deltaSeconds overlaps,
      ∃ p', PlayerNode_frame k deltaSeconds overlaps
              (PlayerNode_new debug default_position default_body) = Done p'.
Proof.
  intros cs.
  assert (∀ more, jumpTrigger
                    (player_children
                       (PlayerNode_new debug default_position default_body)
                     ++ more)
                  = Some (SetIsTrigger default_body true)) as Ht
    by reflexivity.
  split; [apply Ht|]. split.
  - subst cs. rewrite (Update_controls_done _ _ _ _ _ (Ht later)). eauto.
  - intros dt ov. unfold PlayerNode_frame, PlayerNode_Update.
    specialize (Ht []). rewrite app_nil_r in Ht.
    rewrite (Update_controls_done _ _ _ _ _ Ht). cbv zeta.
    cbv beta iota.
    match goal with
    | |- context [RigidbodyNode_Update ?a ?o ?p ?q] =>
        destruct (RigidbodyNode_Update a o p q)
    end. eauto.
Qed.

(** ** Grid files *)

Section Lines.
Local Abbreviation nl := "010"%char.

Lemma eqb_nl_false (c : ascii) : c ≠ nl → Ascii.eqb c nl = false.
Proof. intros Hc. apply Ascii.eqb_neq, Hc. Qed.

(** Reading up to the next newline. *)
Lemma getlines_from_line (l : list ascii) : ∀ (acc s : list ascii),
  nl ∉ l →
  getlines_from acc (l ++ nl :: s) = (rev acc ++ l) :: getlines_from [] s.
Proof.
  induction l as [|c l IH]; intros acc s Hl; simpl.
  - rewrite app_nil_r. reflexivity.
  - apply not_elem_of_cons in Hl as [Hc Hl].
    rewrite eqb_nl_false by (intros ->; apply Hc; reflexivity).
    rewrite IH by exact Hl. simpl. rewrite <- app_assoc. reflexivity.
Qed.

(** Reading a last line that no newline ends. *)
Lemma getlines_from_last (l : list ascii) : ∀ acc : list ascii,
  nl ∉ l →
  getlines_from acc l
  = match rev acc ++ l with [] => [] | line => [line] end.
Proof.
  induction l as [|c l IH]; intros acc Hl; simpl.
  - rewrite app_nil_r. destruct acc as [|a acc]; [reflexivity|].
    simpl. destruct (rev acc ++ [a]) eqn:Hacc; [|reflexivity].
    apply app_eq_nil in Hacc as [_ Hacc]. discriminate Hacc.
  - apply not_elem_of_cons in Hl as [Hc Hl].
    rewrite eqb_nl_false by (intros ->; apply Hc; reflexivity).
    rewrite IH by exact Hl. simpl. rewrite <- app_assoc. reflexivity.
Qed.

(** The lines hold the characters of the file other than the newlines, in
    their order. *)
Lemma concat_getlines_from (s : list ascii) : ∀ acc : list ascii,
  concat (getlines_from acc s)
  = rev acc ++ List.filter (λ c, negb (Ascii.eqb c nl)) s.
Proof.
  induction s as [|c s IH]; intros acc; simpl.
  - destruct acc as [|a acc]; simpl; rewrite ?app_nil_r; reflexivity.
  - destruct (Ascii.eqb c nl); simpl.
    + rewrite IH. reflexivity.
    + rewrite IH. simpl. rewrite <- app_assoc. reflexivity.
Qed.

Lemma cell_characters_row (r : Z) (line : list ascii) : ∀ c : Z,
  cell_characters (row_cells r c line) = line.
Proof.
  unfold cell_characters.
  induction line as [|ch line IH]; intros c; simpl; [reflexivity|].
  rewrite IH. reflexivity.
Qed.

Lemma cell_characters_cells_from (lines : list (list ascii)) : ∀ r : Z,
  cell_characters (cells_from r lines) = concat lines.
Proof.
  induction lines as [|line lines IH]; intros r; simpl; [reflexivity|].
  unfold cell_characters in *. rewrite List.map_app, IH.
  f_equal. apply cell_characters_row.
Qed.

(** The characters of the cells of a file. *)
Lemma cell_characters_file (content : string) :
  cell_characters (cells (getlines (Some content)))
  = List.filter (λ c, negb (Ascii.eqb c nl)) (list_ascii_of_string content).
Proof.
  unfold cells, getlines. rewrite cell_characters_cells_from.
  apply concat_getlines_from.
Qed.

(** A file written line by line reads back as its lines. *)
Lemma getlines_from_unlines (lines : list (list ascii)) :
  Forall (λ line, nl ∉ line) lines →
  ∀ last : list ascii,
    nl ∉ last →
    getlines_from [] (unlines lines ++ last)
    = lines ++ match last with [] => [] | _ => [last] end.
Proof.
  unfold unlines.
  induction 1 as [|line lines Hline _ IH]; intros last Hlast; simpl.
  - rewrite getlines_from_last by exact Hlast. simpl.
    destruct last; reflexivity.
  - rewrite <- !app_assoc. simpl.
    rewrite getlines_from_line by exact Hline. simpl.
    rewrite IH by exact Hlast. reflexivity.
Qed.
End Lines.

Section MapMore.
Context {F : Type} `{FloatArith F}.
Implicit Types (nodesMap : gmap ascii (Node F)) (this : Map F).

(** The constructor succeeds exactly on the grids whose cells all have a
    prototype. *)
Lemma Map_new_constructs (file : option string) nodesMap :
  (∃ this, Map_new file nodesMap = Constructed this)
  ↔ forallb (has_prototype nodesMap) (cells (getlines file)) = true.
Proof.
  split.
  - intros [this Hthis].
    destruct (forallb (has_prototype nodesMap) (cells (getlines file)))
      eqn:Hall; [reflexivity|].
    destruct (Map_new_thrown _ _ Hall) as [sz Hthrown].
    rewrite Hthrown in Hthis. discriminate Hthis.
  - intros Hall. rewrite (Map_new_normal _ _ Hall). eauto.
Qed.

Lemma forallb_has_prototype_characters nodesMap (cs : list cell) :
  forallb (has_prototype nodesMap) cs = true
  ↔ Forall (λ ch, is_Some (nodesMap !! ch)) (cell_characters cs).
Proof.
  rewrite <- Forall_forallb_has_prototype. unfold cell_characters.
  rewrite Forall_map. reflexivity.
Qed.

Lemma tiles_of_cells_length nodesMap (cs : list cell) :
  forallb (has_prototype nodesMap) cs = true →
  length (tiles_of_cells nodesMap cs) = length cs.
Proof.
  intros Hall. symmetry.
  apply (Forall2_length _ _ _ (tiles_of_mapped_cells _ _ Hall)).
Qed.
End MapMore.

(** X11: a map built from a file has one tile for each character of the
    file that is not a newline. *)
Theorem Map_new_tile_count {F : Type} `{FloatArith F}
        (content : string) (nodesMap : gmap ascii (Node F)) (this : Map F) :
  Map_new (Some content) nodesMap = Constructed this →
  length (tiles this)
  = length (List.filter (λ c, negb (Ascii.eqb c "010"%char))
                        (list_ascii_of_string content)).
Proof.
  intros Hthis.
  assert (forallb (has_prototype nodesMap) (cells (getlines (Some content)))
          = true) as Hall by (apply Map_new_constructs; eauto).
  rewrite (Map_new_normal _ _ Hall) in Hthis. injection Hthis as <-.
  cbn [tiles]. rewrite (tiles_of_cells_length _ _ Hall).
  rewrite <- cell_characters_file. unfold cell_characters.
  rewrite length_map. reflexivity.
Qed.

(** The level "# #" / "##" has five tiles. *)
Lemma Map_new_tile_count_witness :
  ∃ this : Map Binary32.float,
    Map_new (Some Sample.level) Sample.nodesMap = Constructed this
    ∧ length (tiles this) = 5%nat.
Proof.
  destruct (Map_new (Some Sample.level) Sample.nodesMap)
    as [this|e partial] eqn:Hnew.
  - exists this. split; [reflexivity|].
    rewrite (Map_new_tile_count Sample.level Sample.nodesMap this Hnew).
    reflexivity.
  - vm_compute in Hnew. discriminate Hnew.
Defined.

Lemma CreateNodeMap_keys {F : Type} `{FloatArith F}
      (default_position : vec3 F) (default_body : Body F) (ch : ascii) :
  is_Some (CreateNodeMap default_position default_body !! ch)
  ↔ ch = "#"%char ∨ ch = " "%char.
Proof.
  unfold CreateNodeMap. rewrite lookup_insert_is_Some, lookup_insert_is_Some.
  rewrite lookup_empty. split.
  - intros [<- | [_ [<- | [_ Hnone]]]]; [auto | auto |].
    destruct Hnone as [? Hnone]. discriminate Hnone.
  - intros [-> | ->]; [right; split; [discriminate | left; reflexivity]
                       | left; reflexivity].
Qed.

(** X12: with the prototypes of [CreateNodeMap] a map file is accepted
    exactly when it holds no character other than '#', the space and the
    newline; any other character, a carriage return before the newline
    among them, ends the construction by [std::out_of_range]. *)
Theorem CreateNodeMap_accepts {F : Type} `{FloatArith F}
        (default_position : vec3 F) (default_body : Body F)
        (content : string) :
  let nodesMap := CreateNodeMap default_position default_body in
  ((∃ this, Map_new (Some content) nodesMap = Constructed this)
   ↔ Forall (λ ch, ch = "#"%char ∨ ch = " "%char ∨ ch = "010"%char)
            (list_ascii_of_string content))
  ∧ ((∃ partial, Map_new (Some content) nodesMap = Threw OutOfRange partial)
     ↔ ¬ Forall (λ ch, ch = "#"%char ∨ ch = " "%char ∨ ch = "010"%char)
                (list_ascii_of_string content)).
Proof.
  intros nodesMap.
  assert ((∃ this, Map_new (Some content) nodesMap = Constructed this)
          ↔ Forall (λ ch, ch = "#"%char ∨ ch = " "%char ∨ ch = "010"%char)
                   (list_ascii_of_string content)) as Hiff.
  { rewrite Map_new_constructs, forallb_has_prototype_characters.
    rewrite cell_characters_file.
    generalize (list_ascii_of_string content). intros s.
    induction s as [|c s IH]; simpl.
    - split; constructor.
    - destruct (Ascii.eqb_spec c "010"%char) as [-> | Hc]; simpl.
      + rewrite IH. split.
        * intros Hs. constructor; [auto | exact Hs].
        * intros Hs. inversion Hs; assumption.
      + rewrite !Forall_cons, IH. subst nodesMap.
        rewrite CreateNodeMap_keys. split.
        * intros [[-> | ->] Hs]; auto.
        * intros [[-> | [-> | ->]] Hs]; [auto | auto | contradiction]. }
  split; [exact Hiff|]. rewrite <- Hiff. split.
  - intros [partial Hthrown] [this Hthis].
    rewrite Hthrown in Hthis. discriminate Hthis.
  - intros Hnot.
    destruct (forallb (has_prototype nodesMap)
                      (cells (getlines (Some content)))) eqn:Hall.
    + exfalso. apply Hnot. apply Map_new_constructs, Hall.
    + destruct (Map_new_thrown _ _ Hall) as [sz Hthrown]. eauto.
Qed.

(** X13: a grid written line by line, each line ended by a newline, is read
    back by the constructor's [std::getline] loop as exactly those lines,
    and the newline after the last line may be left out when that line is
    not empty: the map built is the same. *)
Theorem Map_reads_written_lines {F : Type} `{FloatArith F}
        (lines : list (list ascii)) (last : list ascii)
        (nodesMap : gmap ascii (Node F)) :
  Forall (λ line, "010"%char ∉ line) lines →
  "010"%char ∉ last →
  last ≠ [] →
  getlines (Some (string_of_list_ascii (unlines (lines ++ [last]))))
  = lines ++ [last]
  ∧ getlines (Some (string_of_list_ascii (unlines lines ++ last)))
    = lines ++ [last]
  ∧ Map_new (Some (string_of_list_ascii (unlines (lines ++ [last]))))
            nodesMap
    = Map_new (Some (string_of_list_ascii (unlines lines ++ last))) nodesMap.
Proof.
  intros Hlines Hlast Hne.
  assert (getlines (Some (string_of_list_ascii (unlines (lines ++ [last]))))
          = lines ++ [last]) as H1.
  { unfold getlines. rewrite list_ascii_of_string_of_list_ascii.
    rewrite <- (app_nil_r (unlines (lines ++ [last]))).
    rewrite getlines_from_unlines.
    - apply app_nil_r.
    - apply Forall_app. split; [exact Hlines|]. constructor; [exact Hlast|].
      constructor.
    - apply not_elem_of_nil. }
  assert (getlines (Some (string_of_list_ascii (unlines lines ++ last)))
          = lines ++ [last]) as H2.
  { unfold getlines. rewrite list_ascii_of_string_of_list_ascii.
    rewrite getlines_from_unlines by assumption.
    destruct last; [contradiction | reflexivity]. }
  split; [exact H1|]. split; [exact H2|].
  unfold Map_new, Map_construct. rewrite H1, H2. reflexivity.
Qed.

(** The level "# #" / "##", with and without a newline at its end. *)
Lemma Map_reads_written_lines_witness :
  getlines (Some (Sample.level +:+ String "010" ""))
  = getlines (Some Sample.level)
  ∧ Map_new (F := Binary32.float)
            (Some (Sample.level +:+ String "010" "")) Sample.nodesMap
    = Map_new (Some Sample.level) Sample.nodesMap.
Proof.
  destruct (Map_reads_written_lines (F := Binary32.float)
              [list_ascii_of_string "# #"] (list_ascii_of_string "##")
              Sample.nodesMap)
    as (H1 & H2 & H3).
  - repeat constructor. vm_compute. intros Hin.
    repeat (apply elem_of_cons in Hin as [Hin | Hin]; [discriminate Hin|]).
    apply elem_of_nil in Hin. exact Hin.
  - vm_compute. intros Hin.
    repeat (apply elem_of_cons in Hin as [Hin | Hin]; [discriminate Hin|]).
    apply elem_of_nil in Hin. exact Hin.
  - discriminate.
  - split; [|exact H3]. exact (eq_trans H1 (eq_sym H2)).
Defined.

(** *** Positions *)

Section Positions.
Context {F : Type} `{FloatArith F}.

Lemma row_cells_elem (r : Z) (line : list ascii) : ∀ (c : Z) (x : cell),
  x ∈ row_cells r c line →
  cell_line x = r
  ∧ c ≤ cell_column x < c + Z.of_nat (length line).
Proof.
  induction line as [|ch line IH]; intros c x Hx; simpl in Hx.
  - apply elem_of_nil in Hx. contradiction.
  - apply elem_of_cons in Hx as [-> | Hx].
    + cbn. split; [reflexivity|]. lia.
    + destruct (IH _ _ Hx) as [Hr Hc]. split; [exact Hr|].
      cbn [length]. lia.
Qed.

Lemma cells_from_elem (lines : list (list ascii)) : ∀ (r : Z) (x : cell),
  x ∈ cells_from r lines →
  r ≤ cell_line x < r + Z.of_nat (length lines)
  ∧ ∃ line, line ∈ lines ∧ 0 ≤ cell_column x < Z.of_nat (length line).
Proof.
  induction lines as [|line lines IH]; intros r x Hx; simpl in Hx.
  - apply elem_of_nil in Hx. contradiction.
  - apply elem_of_app in Hx as [Hx | Hx].
    + destruct (row_cells_elem _ _ _ _ Hx) as [Hr Hc]. split.
      * cbn [length]. lia.
      * exists line. split; [apply elem_of_cons; auto | lia].
    + destruct (IH _ _ Hx) as [Hr (l & Hl & Hc)]. split.
      * cbn [length]. lia.
      * exists l. split; [apply elem_of_cons; auto | exact Hc].
Qed.

(** No two cells of a line share a column. *)
Lemma row_cells_NoDup (r : Z) (line : list ascii) : ∀ c : Z,
  NoDup ((row_cells r c line).*1).
Proof.
  induction line as [|ch line IH]; intros c; simpl; constructor.
  - intros Hin. apply list_elem_of_fmap in Hin as (x & Hx & Hin).
    destruct (row_cells_elem _ _ _ _ Hin) as [_ Hc].
    destruct x as [[xr xc] xch]. cbn in Hx, Hc. injection Hx as _ ->. lia.
  - apply IH.
Qed.

(** No two cells of a grid share a line and a column. *)
Lemma cells_from_NoDup (lines : list (list ascii)) : ∀ r : Z,
  NoDup ((cells_from r lines).*1).
Proof.
  induction lines as [|line lines IH]; intros r; simpl; [constructor|].
  rewrite fmap_app. apply NoDup_app. split; [apply row_cells_NoDup|].
  split; [|apply IH].
  intros rc Hrow Hrest.
  apply list_elem_of_fmap in Hrow as (x & -> & Hx).
  apply list_elem_of_fmap in Hrest as (x' & Heq & Hx').
  destruct (row_cells_elem _ _ _ _ Hx) as [Hr _].
  destruct (cells_from_elem _ _ _ Hx') as [Hr' _].
  destruct x as [[xr xc] xch], x' as [[xr' xc'] xch'].
  cbn in Heq, Hr, Hr'. injection Heq as -> ->. lia.
Qed.

(** Where the tiles of cells that all have a prototype are. *)
Lemma tiles_of_cells_positions (nodesMap : gmap ascii (Node F))
      (cs : list cell) :
  forallb (has_prototype nodesMap) cs = true →
  position <$> tiles_of_cells nodesMap cs
  = (λ rc : Z * Z, Vec3 (of_int (int_wrap rc.2)) (of_int (int_wrap rc.1))
                        (of_int 0)) <$> cs.*1.
Proof.
  induction cs as [|[[r c] ch] cs IH]; intros Hall; [reflexivity|].
  cbn [forallb] in Hall. apply andb_true_iff in Hall as [Hc Hcs].
  apply bool_decide_eq_true in Hc as [prototype Hp]. cbn in Hp.
  rewrite (tiles_of_cells_cons _ _ _ _ _ _ Hp), !fmap_cons.
  rewrite IH by exact Hcs. reflexivity.
Qed.

(** Below the bound, two counts with the same float are the same count. *)
Lemma of_int_inj_below (bound : Z) `{!ExactInts F bound} (a b : Z) :
  0 ≤ a < bound → 0 ≤ b < bound → of_int a = of_int b → a = b.
Proof.
  intros Ha Hb Heq.
  pose proof (flt_of_int a b Ha Hb) as Hab.
  pose proof (flt_of_int b a Hb Ha) as Hba.
  pose proof (flt_of_int b b Hb Hb) as Hbb.
  rewrite Heq in Hab. rewrite Heq in Hba.
  rewrite Hbb in Hab, Hba. rewrite Z.ltb_irrefl in Hab, Hba.
  symmetry in Hab, Hba. apply Z.ltb_ge in Hab, Hba. lia.
Qed.
End Positions.

(** X14: the tiles of a map stand at different positions, one tile to a
    position, when the file has no more lines and no longer lines than the
    bound below which counts are exact in a float ([2^24] in binary32). *)
Theorem Map_tiles_have_distinct_positions {F : Type} `{FloatArith F}
        (bound : Z) `{!ExactInts F bound}
        (file : option string) (nodesMap : gmap ascii (Node F))
        (this : Map F) :
  Map_new file nodesMap = Constructed this →
  Forall (λ line, Z.of_nat (length line) ≤ bound) (getlines file) →
  Z.of_nat (length (getlines file)) ≤ bound →
  NoDup (position <$> tiles this).
Proof.
  intros Hthis Hwide Hhigh.
  assert (forallb (has_prototype nodesMap) (cells (getlines file)) = true)
    as Hall by (apply Map_new_constructs; eauto).
  rewrite (Map_new_normal _ _ Hall) in Hthis. injection Hthis as <-.
  cbn [tiles]. rewrite (tiles_of_cells_positions _ _ Hall).
  apply NoDup_fmap_2_strong; [|apply cells_from_NoDup].
  intros [r1 c1] [r2 c2] H1 H2 Heq.
  apply list_elem_of_fmap in H1 as (x1 & Hx1 & Hin1).
  apply list_elem_of_fmap in H2 as (x2 & Hx2 & Hin2).
  destruct (cells_from_elem _ _ _ Hin1) as [Hr1 (l1 & Hl1 & Hc1)].
  destruct (cells_from_elem _ _ _ Hin2) as [Hr2 (l2 & Hl2 & Hc2)].
  rewrite Forall_forall in Hwide.
  pose proof (Hwide _ Hl1) as Hw1. pose proof (Hwide _ Hl2) as Hw2.
  destruct x1 as [[xr1 xc1] ch1], x2 as [[xr2 xc2] ch2].
  cbn in Hx1, Hx2, Hr1, Hr2, Hc1, Hc2.
  injection Hx1 as -> ->. injection Hx2 as -> ->.
  pose proof (bound_int (bound := bound)) as Hint.
  cbn in Heq. injection Heq as Hc Hr.
  rewrite !int_wrap_small in Hc, Hr by lia.
  apply (of_int_inj_below bound) in Hc; [|lia|lia].
  apply (of_int_inj_below bound) in Hr; [|lia|lia].
  congruence.
Qed.

Lemma Map_tiles_have_distinct_positions_witness :
  ∃ this : Map Binary32.float,
    Map_new (Some Sample.level) Sample.nodesMap = Constructed this
    ∧ NoDup (position <$> tiles this).
Proof.
  destruct (Map_new (Some Sample.level) Sample.nodesMap)
    as [this|e partial] eqn:Hnew.
  - exists this. split; [reflexivity|].
    apply (Map_tiles_have_distinct_positions (2 ^ 24)
             (ExactInts0 := Binary32Facts.exact_ints_binary32)
             (Some Sample.level) Sample.nodesMap this Hnew).
    + repeat constructor; vm_compute; discriminate.
    + vm_compute. discriminate.
  - vm_compute in Hnew. discriminate Hnew.
Defined.

(** *** Counts in binary32 *)

(** A count below [2^24] converted to binary32 stands for itself. *)
Lemma to_Q_of_Z (n : Z) :
  0 ≤ n < 2 ^ 24 → (Binary32.to_Q (Binary32.of_Z n) == inject_Z n)%Q.
Proof.
  intros Hn. destruct n as [|p|p]; [reflexivity| |lia].
  rewrite Binary32Facts.of_Z_pos by lia.
  pose proof (Binary32Facts.size_le_24 p ltac:(lia)) as Hs.
  unfold Binary32.to_Q. set (s := Binary32.shift p).
  assert (0 ≤ s) as Hs0 by (unfold s, Binary32.shift; lia).
  assert (0 < 2 ^ s) as Hpow by (apply Z.pow_pos_nonneg; lia).
  rewrite Z2Pos.id by lia.
  rewrite inject_Z_mult, Qpower_opp.
  change 2%Q with (inject_Z 2). rewrite <- Zpower_Qpower by exact Hs0.
  field. intros Hz.
  unfold Qeq in Hz. cbn [Qnum Qden inject_Z] in Hz. lia.
Qed.

(** X15: in binary32, for a map built from a file with fewer than [2^24]
    lines, each shorter than [2^24] characters, the floats the constructor
    stores are exact: the two components of [GetSize()] stand for the length
    of the longest line and the number of lines, and the tile of the
    character at column [c] of line [r] has the position [(c, r, 0)]. *)
Theorem Map_binary32_is_exact
        (file : option string) (nodesMap : gmap ascii (Node Binary32.float))
        (this : Map Binary32.float) :
  Map_new file nodesMap = Constructed this →
  Forall (λ line, Z.of_nat (length line) < 2 ^ 24) (getlines file) →
  Z.of_nat (length (getlines file)) < 2 ^ 24 →
  (Binary32.to_Q (x (GetSize this))
   == inject_Z (max_line_length (getlines file)))%Q
  ∧ (Binary32.to_Q (y (GetSize this))
     == inject_Z (Z.of_nat (length (getlines file))))%Q
  ∧ Forall2 (λ (c : cell) (tile : Node Binary32.float),
               (Binary32.to_Q (x3 (position tile)) == inject_Z (cell_column c)
                ∧ Binary32.to_Q (y3 (position tile)) == inject_Z (cell_line c)
                ∧ Binary32.to_Q (z3 (position tile)) == 0)%Q)
            (cells (getlines file)) (tiles this).
Proof.
  intros Hthis Hwide Hhigh.
  assert (forallb (has_prototype nodesMap) (cells (getlines file)) = true)
    as Hall by (apply Map_new_constructs; eauto).
  rewrite (Map_new_normal _ _ Hall) in Hthis. injection Hthis as <-.
  unfold GetSize. cbn [size tiles x y].
  assert (0 ≤ max_line_length (getlines file) < 2 ^ 24) as Hmax.
  { unfold max_line_length. clear -Hwide.
    induction Hwide as [|line lines Hline _ IH]; simpl; lia. }
  split; [|split].
  - pose proof (widest_line (bound := 2 ^ 24)
                  (ExactInts0 := Binary32Facts.exact_ints_binary32)
                  (getlines file) 0 ltac:(lia) Hwide) as Hw.
    transitivity
      (Binary32.to_Q (of_int (Z.max 0 (max_line_length (getlines file))))).
    + rewrite <- Hw. reflexivity.
    + rewrite Z.max_r by lia. apply to_Q_of_Z. exact Hmax.
  - rewrite int_wrap_small by lia. apply to_Q_of_Z. lia.
  - pose proof (tiles_of_mapped_cells _ _ Hall) as Htiles.
    assert (Forall (λ c : cell, 0 ≤ cell_line c < 2 ^ 24
                                ∧ 0 ≤ cell_column c < 2 ^ 24)
                   (cells (getlines file))) as Hrange.
    { apply Forall_forall. intros c Hc.
      destruct (cells_from_elem _ _ _ Hc) as [Hr (l & Hl & Hcol)].
      rewrite Forall_forall in Hwide. specialize (Hwide _ Hl). lia. }
    clear Hall. revert Hrange.
    induction Htiles as [|c tile cs ts Htile _ IH];
      intros Hrange; constructor.
    + destruct Htile as (prototype & _ & ->).
      inversion Hrange as [|? ? [Hr Hc] _]; subst.
      cbn [SetPosition position x3 y3 z3].
      rewrite !int_wrap_small by lia.
      split; [apply to_Q_of_Z, Hc|]. split; [apply to_Q_of_Z, Hr|].
      reflexivity.
    + apply IH. inversion Hrange; assumption.
Qed.

Lemma Map_binary32_is_exact_witness :
  ∃ this : Map Binary32.float,
    Map_new (Some Sample.level) Sample.nodesMap = Constructed this
    ∧ (Binary32.to_Q (x (GetSize this)) == 3)%Q
    ∧ (Binary32.to_Q (y (GetSize this)) == 2)%Q.
Proof.
  destruct (Map_new (Some Sample.level) Sample.nodesMap)
    as [this|e partial] eqn:Hnew.
  - exists this. split; [reflexivity|].
    destruct (Map_binary32_is_exact (Some Sample.level) Sample.nodesMap this
                Hnew) as (Hx & Hy & _).
    + repeat constructor.
    + reflexivity.
    + split; [exact Hx | exact Hy].
  - vm_compute in Hnew. discriminate Hnew.
Defined.

(** ** MainEngine *)

(** Membership in a list of calls, decided by computation. *)
Ltac decide_calls := apply (bool_decide_unpack _); vm_compute; exact I.

(** X16: [MainEngine::Init] returns 0 exactly when [glfwInit], the creation
    of the window and [gladLoadGLLoader] all succeed, and 1 otherwise; only
    then does it initialise ImGui and create the renderer and the camera;
    the window is asked for only after [glfwInit] has succeeded and the
    OpenGL loader only after the window exists. *)
Theorem Init_returns_zero_iff (pl : Platform) (e : Engine) :
  let '(calls, e', code) := Init pl e in
  (code = 0 ∨ code = 1)
  ∧ (code = 0
     ↔ glfwInit_succeeds pl = true
       ∧ glfwCreateWindow_succeeds pl = true
       ∧ gladLoadGLLoader_succeeds pl = true)
  ∧ (code = 0 → window e' = true ∧ renderer e' = true ∧ camera e' = true)
  ∧ (code = 1 → renderer e' = renderer e ∧ camera e' = camera e)
  ∧ (InitializeImGui ∈ calls ↔ code = 0)
  ∧ (glfwCreateWindow ∈ calls ↔ glfwInit_succeeds pl = true)
  ∧ (gladLoadGLLoader ∈ calls
     ↔ glfwInit_succeeds pl = true ∧ glfwCreateWindow_succeeds pl = true).
Proof.
  destruct pl as [[] [] []], e as [w r c]; cbn;
    repeat split; intros; try discriminate; try reflexivity;
    try (left; reflexivity); try (right; reflexivity);
    try decide_calls;
    try (exfalso;
         match goal with
         | Hin : _ ∈ _ |- _ =>
             revert Hin; apply (bool_decide_unpack _); vm_compute; exact I
         | Hc : _ ∧ _ |- _ => destruct Hc as (? & ?); discriminate
         | Hc : _ ∧ _ ∧ _ |- _ => destruct Hc as (? & ? & ?); discriminate
         end).
Qed.

(** X17: [MainEngine::Stop], run after [Init] whatever [Init] returned,
    shuts ImGui down, also when [Init] failed before it initialised ImGui;
    it destroys the window and terminates GLFW exactly when the window is
    not null, so after an [Init] that initialised GLFW and then failed to
    create the window GLFW is not terminated. *)
Theorem Stop_after_Init (pl : Platform) (e : Engine) :
  let '(calls, e', code) := Init pl e in
  ImGui_ImplOpenGL3_Shutdown ∈ Stop e'
  ∧ ImGui_ImplGlfw_Shutdown ∈ Stop e'
  ∧ ImGui_DestroyContext ∈ Stop e'
  ∧ (code = 1 → InitializeImGui ∉ calls)
  ∧ (glfwTerminate ∈ Stop e' ↔ window e' = true)
  ∧ (glfwDestroyWindow ∈ Stop e' ↔ window e' = true)
  ∧ (glfwInit_succeeds pl = true → glfwCreateWindow_succeeds pl = false →
     glfwInit ∈ calls ∧ code = 1 ∧ glfwTerminate ∉ Stop e').
Proof.
  destruct pl as [[] [] []], e as [[] r c]; cbn;
    repeat split; intros; try discriminate; try reflexivity;
    try decide_calls;
    try (exfalso;
         match goal with
         | Hin : _ ∈ _ |- _ =>
             revert Hin; apply (bool_decide_unpack _); vm_compute; exact I
         end).
Qed.

(** ** Prototype maps with null pointers *)

Section Pointers.
Context {F : Type} `{FloatArith F}.
Implicit Types (nodesMap : gmap ascii (option (Node F))).

Lemma first_fault_app nodesMap (l1 l2 : list ascii) :
  first_fault nodesMap (l1 ++ l2)
  = match first_fault nodesMap l1 with
    | Some e => Some e
    | None => first_fault nodesMap l2
    end.
Proof.
  induction l1 as [|ch l1 IH]; simpl; [reflexivity|].
  destruct (nodesMap !! ch) as [[prototype|]|]; auto.
Qed.

(** The inner loop ends by the first fault of its line, if there is one. *)
Lemma line_loop_outcome nodesMap (r : Z) (line : list ascii) :
  ∀ (c : Z) (this : Map F),
    match first_fault nodesMap line with
    | None => ∃ st, line_loop nodesMap r line c this = Normal st
    | Some e => ∃ st, line_loop nodesMap r line c this = Thrown e st
    end.
Proof.
  induction line as [|ch line IH]; intros c this; cbn [first_fault line_loop].
  - eauto.
  - destruct (nodesMap !! ch) as [[prototype|]|]; [apply IH| |]; eauto.
Qed.

(** The outer loop ends by the first fault of its lines, if there is one. *)
Lemma file_loop_outcome nodesMap (lines : list (list ascii)) :
  ∀ (r : Z) (this : Map F),
    match first_fault nodesMap (concat lines) with
    | None => ∃ st, file_loop nodesMap lines r this = Normal st
    | Some e => ∃ st, file_loop nodesMap lines r this = Thrown e st
    end.
Proof.
  induction lines as [|line lines IH]; intros r this;
    cbn [concat file_loop]; [simpl; eauto|].
  rewrite first_fault_app.
  pose proof (line_loop_outcome nodesMap r line 0 this) as Hline.
  destruct (first_fault nodesMap line) as [e|].
  - destruct Hline as [[this' c'] ->]. eauto.
  - destruct Hline as [[this' c'] ->]. apply IH.
Qed.

(** The constructor ends by the first fault of the file, if there is one. *)
Lemma Map_construct_outcome (file : option string) nodesMap :
  match first_fault nodesMap (concat (getlines file)) with
  | None => ∃ this : Map F, Map_construct file nodesMap = Constructed this
  | Some e => ∃ partial : Map F, Map_construct file nodesMap = Threw e partial
  end.
Proof.
  unfold Map_construct.
  pose proof (file_loop_outcome nodesMap (getlines file) 0
                (MkMap (Vec2 (of_int 0) (of_int 0)) [])) as Hfile.
  destruct (first_fault nodesMap (concat (getlines file))) as [e|];
    destruct Hfile as [[this' r'] ->]; eauto.
Qed.

Lemma first_fault_None nodesMap (chars : list ascii) :
  first_fault nodesMap chars = None
  ↔ Forall (λ ch, ∃ prototype, nodesMap !! ch = Some (Some prototype)) chars.
Proof.
  induction chars as [|ch chars IH]; simpl.
  - split; [constructor | reflexivity].
  - rewrite Forall_cons.
    destruct (nodesMap !! ch) as [[prototype|]|]; rewrite <- ?IH.
    + split; [eauto | tauto].
    + split; [discriminate | intros [[p Hp] _]; discriminate Hp].
    + split; [discriminate | intros [[p Hp] _]; discriminate Hp].
Qed.

Lemma first_fault_Some nodesMap (chars : list ascii) (e : fault) :
  first_fault nodesMap chars = Some e
  ↔ ∃ before ch after,
      chars = before ++ ch :: after
      ∧ Forall (λ ch, ∃ prototype, nodesMap !! ch = Some (Some prototype))
               before
      ∧ nodesMap !! ch = entry_of_fault e.
Proof.
  induction chars as [|ch chars IH]; simpl.
  - split; [discriminate|].
    intros (before & ch & after & Hsplit & _).
    destruct before; discriminate Hsplit.
  - destruct (nodesMap !! ch) as [[prototype|]|] eqn:Hch.
    + rewrite IH. split.
      * intros (before & bad & after & -> & Hlive & Hbad).
        exists (ch :: before), bad, after. split; [reflexivity|].
        split; [constructor; eauto | exact Hbad].
      * intros (before & bad & after & Hsplit & Hlive & Hbad).
        destruct before as [|b before]; simpl in Hsplit;
          injection Hsplit as <- ->.
        -- rewrite Hch in Hbad. destruct e; discriminate Hbad.
        -- inversion Hlive; subst. eauto 10.
    + split.
      * intros [= <-]. exists [], ch, chars.
        split; [reflexivity|]. split; [constructor | exact Hch].
      * intros (before & bad & after & Hsplit & Hlive & Hbad).
        destruct before as [|b before]; simpl in Hsplit;
          injection Hsplit as <- ->.
        -- rewrite Hch in Hbad. destruct e; [reflexivity | discriminate Hbad].
        -- inversion Hlive as [|? ? [p Hp] _]; subst.
           rewrite Hch in Hp. discriminate Hp.
    + split.
      * intros [= <-]. exists [], ch, chars.
        split; [reflexivity|]. split; [constructor | exact Hch].
      * intros (before & bad & after & Hsplit & Hlive & Hbad).
        destruct before as [|b before]; simpl in Hsplit;
          injection Hsplit as <- ->.
        -- rewrite Hch in Hbad. destruct e; [discriminate Hbad | reflexivity].
        -- inversion Hlive as [|? ? [p Hp] _]; subst.
           rewrite Hch in Hp. discriminate Hp.
Qed.

(** A map of live prototypes has no null pointer. *)
Lemma first_fault_live (prototypes : gmap ascii (Node F))
      (chars : list ascii) :
  first_fault (Some <$> prototypes) chars ≠ Some NullDereference.
Proof.
  induction chars as [|ch chars IH]; simpl; [discriminate|].
  rewrite lookup_fmap.
  destruct (prototypes !! ch); simpl; [exact IH | discriminate].
Qed.
End Pointers.

(** *** Prototype maps that agree on the characters of a file *)

Section Agree.
Context {F : Type} `{FloatArith F}.
Implicit Types (m nodesMap : gmap ascii (option (Node F))).

(** The loops look the prototype map up at the characters they read, and
    nowhere else. *)
Lemma line_loop_agree m m' (r : Z) (line : list ascii) :
  (∀ ch, ch ∈ line → m !! ch = m' !! ch) →
  ∀ (c : Z) (this : Map F),
    line_loop m r line c this = line_loop m' r line c this.
Proof.
  induction line as [|a line IH]; intros Hagree c this; cbn [line_loop];
    [reflexivity|].
  rewrite <- (Hagree a) by (apply elem_of_cons; auto).
  destruct (m !! a) as [[prototype|]|]; [|reflexivity|reflexivity].
  apply IH. intros ch Hch. apply Hagree, elem_of_cons. auto.
Qed.

Lemma file_loop_agree m m' (lines : list (list ascii)) :
  (∀ ch, ch ∈ concat lines → m !! ch = m' !! ch) →
  ∀ (r : Z) (this : Map F),
    file_loop m lines r this = file_loop m' lines r this.
Proof.
  induction lines as [|line lines IH]; intros Hagree r this;
    cbn [file_loop]; [reflexivity|].
  rewrite (line_loop_agree m m')
    by (intros ch Hch; apply Hagree; cbn [concat]; apply elem_of_app; auto).
  destruct (line_loop m' r line 0 this) as [[this' c']|e [this' c']];
    [|reflexivity].
  apply IH. intros ch Hch. apply Hagree. cbn [concat].
  apply elem_of_app. auto.
Qed.

Lemma Map_construct_agree (file : option string) m m' :
  (∀ ch, ch ∈ concat (getlines file) → m !! ch = m' !! ch) →
  Map_construct file m = Map_construct file m'.
Proof.
  intros Hagree. unfold Map_construct.
  rewrite (file_loop_agree m m' _ Hagree). reflexivity.
Qed.

(** The nodes behind the pointers of a prototype map that are not null. *)
Lemma lookup_live nodesMap (ch : ascii) (prototype : Node F) :
  (omap id nodesMap : gmap ascii (Node F)) !! ch = Some prototype
  ↔ nodesMap !! ch = Some (Some prototype).
Proof.
  rewrite lookup_omap. destruct (nodesMap !! ch) as [[p|]|]; simpl;
    split; congruence.
Qed.

(** On a file all of whose characters have a pointer that is not null, the
    constructor does what it does with the map of the nodes behind the
    pointers. *)
Lemma Map_construct_live (file : option string) nodesMap :
  Forall (λ ch, ∃ prototype, nodesMap !! ch = Some (Some prototype))
         (concat (getlines file)) →
  Map_construct file nodesMap = Map_new file (omap id nodesMap).
Proof.
  intros Hlive. unfold Map_new. apply Map_construct_agree.
  intros ch Hch. rewrite Forall_forall in Hlive.
  destruct (Hlive _ Hch) as [prototype Hp].
  rewrite lookup_fmap, (proj2 (lookup_live nodesMap ch prototype) Hp), Hp.
  reflexivity.
Qed.

(** A map is constructed only from a file all of whose characters have a
    pointer that is not null. *)
Lemma Map_construct_Constructed_live (file : option string) nodesMap
      (this : Map F) :
  Map_construct file nodesMap = Constructed this →
  Forall (λ ch, ∃ prototype, nodesMap !! ch = Some (Some prototype))
         (concat (getlines file)).
Proof.
  intros Hthis. apply first_fault_None.
  pose proof (Map_construct_outcome file nodesMap) as Hout.
  destruct (first_fault nodesMap (concat (getlines file))) as [e|];
    [|reflexivity].
  destruct Hout as [partial Hp]. congruence.
Qed.

(** The characters of the cells of a grid are the characters of its
    lines. *)
Lemma Forall_cells_characters (P : ascii → Prop) (lines : list (list ascii)) :
  Forall (λ c, P (cell_character c)) (cells lines) ↔ Forall P (concat lines).
Proof.
  rewrite <- (cell_characters_cells_from lines 0). unfold cell_characters.
  rewrite Forall_map. reflexivity.
Qed.
End Agree.

(** ** The constructor within the range of [int] *)

Section Bounded.
Context {F : Type} `{FloatArith F}.

(** In a grid of fewer than [2^31] lines, each of fewer than [2^31]
    characters, the two counters hold the line and the column of every
    cell. *)
Lemma cells_in_int (lines : list (list ascii)) (c : cell) :
  Z.of_nat (length lines) < 2 ^ 31 →
  Forall (λ line, Z.of_nat (length line) < 2 ^ 31) lines →
  c ∈ cells lines →
  int_wrap (cell_column c) = cell_column c
  ∧ int_wrap (cell_line c) = cell_line c.
Proof.
  intros Hhigh Hwide Hc.
  destruct (cells_from_elem _ _ _ Hc) as [Hr (l & Hl & Hcol)].
  rewrite Forall_forall in Hwide. specialize (Hwide _ Hl).
  split; apply int_wrap_small; lia.
Qed.

(** From one relation between cells and tiles to another, cell by cell. *)
Lemma Forall2_impl_elem {A B : Type} (P Q : A → B → Prop)
      (l : list A) (k : list B) :
  Forall2 P l k →
  (∀ a b, a ∈ l → P a b → Q a b) →
  Forall2 Q l k.
Proof.
  induction 1 as [|a b l k Hab _ IH]; intros Himpl; constructor.
  - apply Himpl; [apply elem_of_cons; auto | exact Hab].
  - apply IH. intros a' b' Hin. apply Himpl. apply elem_of_cons. auto.
Qed.
End Bounded.

(** C6, as the code has it: for a grid file of fewer than [2^31] lines, each
    of fewer than [2^31] characters, all of whose characters are keys of the
    prototype map with a pointer that is not null, the [Map] constructor
    makes one tile for each character, in reading order; the tile of the
    character at column [c] of line [r] is a clone of the prototype of that
    character with its local position set to [(c, r, 0)], the two counts
    converted to [float]. *)
Theorem Map_construct_places_tiles {F : Type} `{FloatArith F}
        (file : option string) (nodesMap : gmap ascii (option (Node F))) :
  Forall (λ c, ∃ prototype,
            nodesMap !! cell_character c = Some (Some prototype))
         (cells (getlines file)) →
  Z.of_nat (length (getlines file)) < 2 ^ 31 →
  Forall (λ line, Z.of_nat (length line) < 2 ^ 31) (getlines file) →
  ∃ this : Map F,
    Map_construct file nodesMap = Constructed this
    ∧ Forall2 (λ (c : cell) (tile : Node F),
                 ∃ prototype : Node F,
                   nodesMap !! cell_character c = Some (Some prototype)
                   ∧ tile = SetPosition (Clone prototype)
                              (Vec3 (of_int (cell_column c))
                                    (of_int (cell_line c))
                                    (of_int 0)))
              (cells (getlines file)) (tiles this).
Proof.
  intros Hall Hhigh Hwide.
  rewrite (Map_construct_live file nodesMap)
    by (apply (Forall_cells_characters
                 (λ ch, ∃ prototype, nodesMap !! ch = Some (Some prototype)));
        exact Hall).
  assert (forallb (has_prototype (omap id nodesMap)) (cells (getlines file))
          = true) as Hmapped.
  { apply Forall_forallb_has_prototype.
    eapply Forall_impl; [exact Hall|].
    intros c [prototype Hp]. exists prototype. apply lookup_live, Hp. }
  rewrite (Map_new_normal _ _ Hmapped). eexists. split; [reflexivity|].
  cbn [tiles].
  apply (Forall2_impl_elem _ _ _ _ (tiles_of_mapped_cells _ _ Hmapped)).
  intros c tile Hc (prototype & Hp & ->).
  destruct (cells_in_int _ _ Hhigh Hwide Hc) as [-> ->].
  exists prototype. split; [apply lookup_live, Hp | reflexivity].
Qed.

(** The level "# #" / "##": five tiles, brick, path, brick, brick, brick. *)
Lemma Map_construct_places_tiles_witness :
  cells (getlines (Some Sample.level))
  = [ (0, 0, "#"%char); (0, 1, " "%char); (0, 2, "#"%char);
      (1, 0, "#"%char); (1, 1, "#"%char) ]
  ∧ ∃ this : Map Binary32.float,
      Map_construct (Some Sample.level) (Some <$> Sample.nodesMap)
      = Constructed this
      ∧ Forall2 (λ (c : cell) (tile : Node Binary32.float),
                   ∃ prototype : Node Binary32.float,
                     (Some <$> Sample.nodesMap) !! cell_character c
                     = Some (Some prototype)
                     ∧ tile = SetPosition (Clone prototype)
                                (Vec3 (of_int (cell_column c))
                                      (of_int (cell_line c))
                                      (of_int 0)))
                (cells (getlines (Some Sample.level))) (tiles this).
Proof.
  split; [reflexivity|].
  apply (Map_construct_places_tiles (Some Sample.level)
           (Some <$> Sample.nodesMap)).
  - repeat constructor; vm_compute; eauto.
  - vm_compute. reflexivity.
  - repeat constructor.
Defined.

(** ** The size of a map *)

Section OneLine.
Context {F : Type} `{FloatArith F}.

(** A file that is one line of [n] times the character [c], no newline. *)
Lemma getlines_repeat (c : ascii) (n : nat) :
  c ≠ "010"%char → n ≠ 0%nat →
  getlines (Some (string_of_list_ascii (repeat c n))) = [repeat c n].
Proof.
  intros Hc Hn. unfold getlines.
  rewrite list_ascii_of_string_of_list_ascii.
  rewrite getlines_from_last.
  - destruct n as [|n]; [congruence|]. reflexivity.
  - intros Hin. apply list_elem_of_In, repeat_spec in Hin. congruence.
Qed.

Lemma max_line_length_repeat (c : ascii) (n : nat) :
  max_line_length [repeat c n] = Z.of_nat n.
Proof.
  unfold max_line_length. cbn [List.map foldr]. rewrite repeat_length. lia.
Qed.

(** The map of such a file, shorter than [2^31]. *)
Lemma Map_construct_repeat (nodesMap : gmap ascii (Node F)) (c : ascii) (n : nat) :
  c ≠ "010"%char → n ≠ 0%nat → Z.of_nat n < 2 ^ 31 →
  is_Some (nodesMap !! c) →
  ∃ ts : list (Node F),
    Map_construct (Some (string_of_list_ascii (repeat c n)))
                  (Some <$> nodesMap)
    = Constructed (MkMap (Vec2 (std_max (of_int 0) (of_int (Z.of_nat n)))
                               (of_int 1))
                         ts).
Proof.
  intros Hc Hn Hint Hlive.
  assert (forallb (has_prototype nodesMap)
            (cells (getlines (Some (string_of_list_ascii (repeat c n)))))
          = true) as Hall.
  { apply forallb_has_prototype_characters.
    rewrite cell_characters_file, list_ascii_of_string_of_list_ascii.
    apply Forall_forall. intros ch Hch.
    apply list_elem_of_In, filter_In in Hch as [Hch _].
    apply repeat_spec in Hch. subst ch. exact Hlive. }
  pose proof (Map_new_normal _ _ Hall) as Hnew. unfold Map_new in Hnew.
  rewrite Hnew. rewrite (getlines_repeat c n Hc Hn).
  cbn [foldl length]. rewrite repeat_length.
  rewrite (int_wrap_small (Z.of_nat n)) by lia.
  eexists. reflexivity.
Qed.
End OneLine.

(** C10, as the claim words it, does not hold of the float code.  In the
    file that is one line of [2^24 + 1] bricks the longest line has
    [M = 16777217] characters; the constructor builds the map, and
    [GetSize().x], the count converted to [float], is [16777216]. *)
Lemma GetSize_rounds_long_line :
  let file := Some (string_of_list_ascii long_line) in
  getlines file = [long_line]
  ∧ max_line_length (getlines file) = 2 ^ 24 + 1
  ∧ ∃ this : Map Binary32.float,
      Map_construct file (Some <$> Sample.nodesMap) = Constructed this
      ∧ (Binary32.to_Q (x (GetSize this)) == inject_Z (2 ^ 24))%Q
      ∧ ¬ (Binary32.to_Q (x (GetSize this))
           == inject_Z (max_line_length (getlines file)))%Q.
Proof.
  cbv zeta. unfold long_line.
  assert ("#"%char ≠ "010"%char) as Hc by discriminate.
  assert (Z.to_nat (2 ^ 24 + 1) ≠ 0%nat) as Hn by lia.
  rewrite (getlines_repeat _ _ Hc Hn), max_line_length_repeat.
  rewrite Z2Nat.id by lia.
  split; [reflexivity|]. split; [reflexivity|].
  destruct (Map_construct_repeat Sample.nodesMap "#"%char (Z.to_nat (2 ^ 24 + 1))
              Hc Hn) as [ts Hnew].
  - rewrite Z2Nat.id by lia. lia.
  - vm_compute. eauto.
  - rewrite Z2Nat.id in Hnew by lia.
    eexists. split; [exact Hnew|].
    unfold GetSize. cbn [size x].
    assert (std_max (of_int 0) (of_int (2 ^ 24 + 1))
            = S754_finite false 8388608 1 :> Binary32.float) as ->
      by (vm_compute; reflexivity).
    split; [vm_compute; reflexivity | vm_compute; discriminate].
Qed.

(** C10, as the code has it: in binary32, after the construction of a [Map]
    from a file with [L] lines, [L] below [2^24], each line shorter than
    [2^24] characters, [GetSize()] is the pair of the floats that stand for
    [M] and [L], where [M] is the length of the longest line; on an empty
    file and on a file that cannot be opened it is [(0, 0)]. *)
Theorem GetSize_after_construction
        (file : option string)
        (nodesMap : gmap ascii (option (Node Binary32.float)))
        (this : Map Binary32.float) :
  Map_construct file nodesMap = Constructed this →
  Z.of_nat (length (getlines file)) < 2 ^ 24 →
  Forall (λ line, Z.of_nat (length line) < 2 ^ 24) (getlines file) →
  GetSize this
  = Vec2 (of_int (max_line_length (getlines file)))
         (of_int (Z.of_nat (length (getlines file))))
  ∧ (Binary32.to_Q (x (GetSize this))
     == inject_Z (max_line_length (getlines file)))%Q
  ∧ (Binary32.to_Q (y (GetSize this))
     == inject_Z (Z.of_nat (length (getlines file))))%Q
  ∧ Map_construct None nodesMap
    = Constructed (MkMap (Vec2 (of_int 0) (of_int 0)) [])
  ∧ Map_construct (Some ""%string) nodesMap
    = Constructed (MkMap (Vec2 (of_int 0) (of_int 0)) [])
  ∧ (Binary32.to_Q (of_int 0) == 0)%Q.
Proof.
  intros Hnew Hhigh Hwide.
  pose proof (Map_construct_Constructed_live _ _ _ Hnew) as Hlive.
  rewrite (Map_construct_live _ _ Hlive) in Hnew.
  assert (forallb (has_prototype (omap id nodesMap)) (cells (getlines file))
          = true) as Hall by (apply Map_new_constructs; eauto).
  assert (0 ≤ max_line_length (getlines file) < 2 ^ 24) as Hmax.
  { unfold max_line_length. clear -Hwide.
    induction Hwide as [|line lines Hline _ IH]; simpl; lia. }
  assert (GetSize this
          = Vec2 (of_int (max_line_length (getlines file)))
                 (of_int (Z.of_nat (length (getlines file))))) as Hsize.
  { rewrite (Map_new_normal _ _ Hall) in Hnew.
    pose proof (widest_line (bound := 2 ^ 24)
                  (ExactInts0 := Binary32Facts.exact_ints_binary32)
                  (getlines file) 0 ltac:(lia) Hwide) as Hw.
    rewrite Z.max_r in Hw by lia.
    rewrite int_wrap_small in Hnew by lia.
    destruct this as [sz ts]. unfold GetSize. cbn [size].
    injection Hnew as <- _. f_equal. exact Hw. }
  split; [exact Hsize|]. rewrite Hsize. cbn [x y].
  split; [apply to_Q_of_Z; exact Hmax|].
  split; [apply to_Q_of_Z; lia|].
  split; [reflexivity|]. split; reflexivity.
Qed.

(** The level "# #" / "##" is 3 wide and 2 high. *)
Lemma GetSize_after_construction_witness :
  ∃ this : Map Binary32.float,
    Map_construct (Some Sample.level) (Some <$> Sample.nodesMap)
    = Constructed this
    ∧ GetSize this = Vec2 (of_int 3) (of_int 2)
    ∧ (Binary32.to_Q (x (GetSize this)) == 3)%Q
    ∧ (Binary32.to_Q (y (GetSize this)) == 2)%Q.
Proof.
  destruct (Map_construct (Some Sample.level) (Some <$> Sample.nodesMap))
    as [this|e partial] eqn:Hnew.
  - exists this. split; [reflexivity|].
    destruct (GetSize_after_construction (Some Sample.level)
                (Some <$> Sample.nodesMap) this Hnew)
      as (Hsize & Hx & Hy & _).
    + reflexivity.
    + repeat constructor.
    + split; [exact Hsize|]. split; [exact Hx | exact Hy].
  - vm_compute in Hnew. discriminate Hnew.
Defined.

(** X10: the [Map] constructor builds a map exactly when every character of
    every line of the file is a key of the prototype map whose pointer is
    not null.  Otherwise it ends at the first character, in reading order,
    that is not: by [std::out_of_range] if that character is not a key, by
    the dereference of a null pointer if its pointer is null.  With a
    prototype map that holds no null pointer, as the one [CreateNodeMap]
    builds, it ends by no other fault than [std::out_of_range]. *)
Theorem Map_construct_outcomes {F : Type} `{FloatArith F}
        (file : option string) (nodesMap : gmap ascii (option (Node F))) :
  let chars := concat (getlines file) in
  let live := λ ch, ∃ prototype, nodesMap !! ch = Some (Some prototype) in
  ((∃ this, Map_construct file nodesMap = Constructed this)
   ↔ Forall live chars)
  ∧ ((∃ partial, Map_construct file nodesMap = Threw OutOfRange partial)
     ↔ ∃ before ch after,
         chars = before ++ ch :: after
         ∧ Forall live before ∧ nodesMap !! ch = None)
  ∧ ((∃ partial, Map_construct file nodesMap = Threw NullDereference partial)
     ↔ ∃ before ch after,
         chars = before ++ ch :: after
         ∧ Forall live before ∧ nodesMap !! ch = Some None)
  ∧ (∀ (prototypes : gmap ascii (Node F)) e partial,
       Map_new file prototypes = Threw e partial → e = OutOfRange).
Proof.
  intros chars live.
  assert (∀ e, (∃ partial, Map_construct file nodesMap = Threw e partial)
               ↔ first_fault nodesMap chars = Some e) as Hthrew.
  { intros e. pose proof (Map_construct_outcome file nodesMap) as Hout.
    fold chars in Hout. split.
    - intros [partial Hp].
      destruct (first_fault nodesMap chars) as [e'|].
      + destruct Hout as [partial' Hp']. congruence.
      + destruct Hout as [this Hthis]. congruence.
    - intros He. rewrite He in Hout. exact Hout. }
  split; [|split; [|split]].
  - unfold live. rewrite <- first_fault_None.
    pose proof (Map_construct_outcome file nodesMap) as Hout.
    fold chars in Hout. split.
    + intros [this Hthis].
      destruct (first_fault nodesMap chars) as [e|]; [|reflexivity].
      destruct Hout as [partial Hp]. congruence.
    + intros Hnone. rewrite Hnone in Hout. exact Hout.
  - rewrite Hthrew. apply (first_fault_Some nodesMap chars OutOfRange).
  - rewrite Hthrew. apply (first_fault_Some nodesMap chars NullDereference).
  - intros prototypes e partial Hp. unfold Map_new in Hp.
    pose proof (Map_construct_outcome file (Some <$> prototypes)) as Hout.
    pose proof (first_fault_live prototypes (concat (getlines file)))
      as Hlive.
    destruct (first_fault (Some <$> prototypes) (concat (getlines file)))
      as [e'|].
    + destruct Hout as [partial' Hp']. rewrite Hp' in Hp.
      injection Hp as <- _. destruct e'; [contradiction | reflexivity].
    + destruct Hout as [this Hthis]. congruence.
Qed.

(** The prototype map that sends the brick to the null pointer: the
    constructor ends on the file "#" by a null dereference, and on the file
    "a" by [std::out_of_range]. *)
Lemma Map_construct_null_prototype :
  let nodesMap : gmap ascii (option (Node Binary32.float)) :=
    <["#"%char := None]> ∅ in
  Map_construct (Some "#"%string) nodesMap
  = Threw NullDereference (MkMap (Vec2 (of_int 0) (of_int 0)) [])
  ∧ Map_construct (Some "a"%string) nodesMap
    = Threw OutOfRange (MkMap (Vec2 (of_int 0) (of_int 0)) []).
Proof. split; vm_compute; reflexivity. Qed.
